(** * form-js: repeat rendering, the number field, and two smaller pieces

    A shallow embedding of parts of [form-js-viewer] and [form-js-editor]:

    - [features/repeatRender/RepeatRenderManager.js] (modules [Repeat] and
      [FieldRepeating]): the visible slice of a repeated group, the add /
      remove / collapse handlers, the effective collapse cap and
      [isFieldRepeating];
    - [render/components/form-fields/Number.js] (module [NumberField]):
      the text cache of the number input, [setValue], the arrow stepping,
      [displayValue] and [sanitizeValue];
    - [render/components/form-fields/parts/Datepicker.js] (module
      [Datepicker]): the handlers of the date input;
    - [features/properties-panel/entries/HeightEntry.js] (module
      [HeightEntry]): the validation of the height.

    JavaScript arrays are lists, array positions and configuration integers
    are [Z], the [indexes] object is a [gmap string Z].  The library calls
    of the sources are modelled in [JsArray] ([slice], [splice], [push]),
    [BigJs] (big.js decimals, their text and arithmetic) and [Js] (values,
    the numbers of the binary64 format, [Number], [String], truthiness,
    [===], [<]).

    Event handlers are functions on an explicit record of the mutable
    things they touch; a handler of the number field may throw, so it runs
    in a small state-and-exception monad.  A handler is a closure of the
    render that created it: it takes the state of that render and the
    state in which it runs.

    The definitions come first; the facts about them, module by module,
    follow. *)

From Stdlib Require Import ZArith Lia Bool Ascii String.
From stdpp Require Import base list gmap strings.

Local Open Scope Z_scope.

(** ** JavaScript array primitives used by the sources *)

Module JsArray.

(** Relative index resolution shared by [Array.prototype.slice] and
    [Array.prototype.splice]: a negative index counts from the end and
    the result is clamped to [0, len]. *)
Definition relIndex (len k : Z) : Z :=
  if k <? 0 then Z.max (len + k) 0 else Z.min k len.

(** [arr.slice(start, end)]; an omitted argument is [None]. *)
Definition slice {A} (start end_ : option Z) (l : list A) : list A :=
  let len := Z.of_nat (length l) in
  let from := relIndex len (default 0 start) in
  let to := relIndex len (default len end_) in
  take (Z.to_nat (to - from)) (drop (Z.to_nat from) l).

(** The array left behind by [arr.splice(start, deleteCount)]. *)
Definition splice {A} (start deleteCount : Z) (l : list A) : list A :=
  let len := Z.of_nat (length l) in
  let actualStart := relIndex len start in
  let actualDeleteCount := Z.min (Z.max deleteCount 0) (len - actualStart) in
  take (Z.to_nat actualStart) l
    ++ drop (Z.to_nat (actualStart + actualDeleteCount)) l.

(** [arr.push(x)] *)
Definition push {A} (x : A) (l : list A) : list A := l ++ [x].

End JsArray.

(** ** RepeatRenderManager.js *)

Module Repeat.
Import JsArray.

(** The attributes of a repeatable field definition that the manager
    reads.  [nonCollapsedItems] is [None] when the attribute is absent;
    [components] is [None] when the field has no [components] array. *)
Record field := Field {
  id : string;
  disableCollapse : bool;
  nonCollapsedItems : option Z;
  allowAddRemove : bool;
  components : option (list string)
}.

(** The state handed around through [useSharedState]. *)
Record SharedRepeatState := Shared { isCollapsed : bool }.

(** [_getNonCollapsedItems(field)]: the attribute when it is truthy
    (present and not [0]), [DEFAULT_NON_COLLAPSED_ITEMS] otherwise. *)
Definition DEFAULT_NON_COLLAPSED_ITEMS : Z := 5.

Definition _getNonCollapsedItems (f : field) : Z :=
  match nonCollapsedItems f with
  | Some n => if n =? 0 then DEFAULT_NON_COLLAPSED_ITEMS else n
  | None => DEFAULT_NON_COLLAPSED_ITEMS
  end.

(** [repeaterField.components && repeaterField.components.length > 0] *)
Definition hasChildren (f : field) : bool :=
  match components f with
  | Some cs => (0 <? Z.of_nat (length cs))
  | None => false
  end.

Section Manager.
(** The collaborators of the manager: the items of the form data, the
    data object, data paths, [pathRegistry.getValuePath], min-dash's
    [get] (returning [None] when there is nothing truthy at the path)
    and [form._getInitializedFieldData]. *)
Context {item data path : Type}.
Variable getValuePath : field -> gmap string Z -> path.
Variable get : data -> path -> option (list item).
Variable getInitializedFieldData : data -> field -> gmap string Z -> item.

(** The argument of a [props.onChange] call. *)
Record changeRequest := Change {
  cr_field : field;
  cr_value : list item;
  cr_indexes : gmap string Z
}.

(** What the handlers can observe and change: the form data
    ([form._getState().data]), the shared repeat state, the calls made
    to [props.onChange] so far (oldest first) and the [shouldScroll]
    ref. *)
Record world := World {
  formData : data;
  sharedRepeatState : SharedRepeatState;
  onChangeCalls : list changeRequest;
  shouldScroll : bool
}.

(** The props that the two components read; [readonly] and [disabled]
    by their truthiness. *)
Record props := Props {
  p_field : field;
  p_indexes : gmap string Z;
  p_readonly : bool;
  p_disabled : bool
}.

Definition onChange (c : changeRequest) (w : world) : world :=
  {| formData := formData w;
     sharedRepeatState := sharedRepeatState w;
     onChangeCalls := onChangeCalls w ++ [c];
     shouldScroll := shouldScroll w |}.

Definition setSharedRepeatState
    (update : SharedRepeatState -> SharedRepeatState) (w : world) : world :=
  {| formData := formData w;
     sharedRepeatState := update (sharedRepeatState w);
     onChangeCalls := onChangeCalls w;
     shouldScroll := shouldScroll w |}.

Definition setShouldScroll (b : bool) (w : world) : world :=
  {| formData := formData w;
     sharedRepeatState := sharedRepeatState w;
     onChangeCalls := onChangeCalls w;
     shouldScroll := b |}.

(** [w'] is [w] after exactly one more [props.onChange] call, with [c],
    and no other change. *)
Definition emitted (c : changeRequest) (w w' : world) : Prop :=
  onChangeCalls w' = onChangeCalls w ++ [c]
  /\ formData w' = formData w
  /\ sharedRepeatState w' = sharedRepeatState w
  /\ shouldScroll w' = shouldScroll w.

(** [get(data, dataPath) || []] *)
Definition values (p : props) (w : world) : list item :=
  default [] (get (formData w) (getValuePath (p_field p) (p_indexes p))).

Definition collapseEnabled (p : props) (w : world) : bool :=
  negb (disableCollapse (p_field p))
  && (Z.of_nat (length (values p w)) >? _getNonCollapsedItems (p_field p)).

(** The local [isCollapsed] of both components. *)
Definition isCollapsedNow (p : props) (w : world) : bool :=
  collapseEnabled p w && isCollapsed (sharedRepeatState w).

(** [showRemove] in [Repeater], [showAdd] in [RepeatFooter]. *)
Definition showAddRemove (p : props) : bool :=
  allowAddRemove (p_field p) && hasChildren (p_field p).

Definition displayValues (p : props) (w : world) : list item :=
  if isCollapsedNow p w
  then slice (Some 0) (Some (_getNonCollapsedItems (p_field p))) (values p w)
  else values p w.

(** [onDeleteItem], closed over the [values] of the render. *)
Definition onDeleteItem (p : props) (rendered : world) (index : Z)
    (w : world) : world :=
  let updatedValues := slice None None (values p rendered) in
  let updatedValues := splice index 1 updatedValues in
  onChange {| cr_field := p_field p;
              cr_value := updatedValues;
              cr_indexes := p_indexes p |} w.

(** One rendered row: its array position, its item, the [indexes] of
    its children, and the click handler of its remove button when the
    button is rendered. *)
Record row := Row {
  row_index : Z;
  row_value : item;
  row_indexes : gmap string Z;
  row_remove : option (world -> world)
}.

(** [Repeater(props)]: [displayValues.map((value, index) => ...)]. *)
Definition Repeater (p : props) (w : world) : list row :=
  imap (fun (i : nat) (value : item) =>
          let index := Z.of_nat i in
          {| row_index := index;
             row_value := value;
             row_indexes := <[ id (p_field p) := index ]> (p_indexes p);
             row_remove :=
               if showAddRemove p
               then Some (onDeleteItem p w index)
               else None |})
       (displayValues p w).

(** The remove button that carries [index]: the button of a row calls
    [onDeleteItem] with the position of that row, and nothing else calls
    it. *)
Definition removeButton (p : props) (w : world) (index : Z)
    : option (world -> world) :=
  r ← head (filter (fun r => bool_decide (row_index r = index)) (Repeater p w));
  row_remove r.

(** A request to remove the item at [index], made on the render of [w]:
    a click on the button that carries the index; where no such button is
    rendered there is nothing to click. *)
Definition removeItem (p : props) (rendered : world) (index : Z)
    (w : world) : world :=
  match removeButton p rendered index with
  | Some handler => handler w
  | None => w
  end.

(** [toggle], closed over the [isCollapsed] of the render. *)
Definition toggle (p : props) (rendered : world) (w : world) : world :=
  setSharedRepeatState
    (fun state => {| isCollapsed := negb (isCollapsedNow p rendered) |}) w.

(** [onAddItem], closed over the [values] of the render; the form
    state is read again when the handler runs. *)
Definition onAddItem (p : props) (rendered : world) (w : world) : world :=
  let updatedValues := slice None None (values p rendered) in
  let newItem :=
    getInitializedFieldData (formData w) (p_field p)
      (<[ id (p_field p) := Z.of_nat (length updatedValues) ]> (p_indexes p)) in
  let updatedValues := push newItem updatedValues in
  let w := setShouldScroll true w in
  let w := onChange {| cr_field := p_field p;
                       cr_value := updatedValues;
                       cr_indexes := p_indexes p |} w in
  setSharedRepeatState (fun state => {| isCollapsed := false |}) w.

(** A button with a [disabled] attribute and its click handler. *)
Record button := Button {
  disabled : bool;
  onClick : world -> world
}.

(** A click on a button: a disabled button does not react. *)
Definition click (b : button) (w : world) : world :=
  if disabled b then w else onClick b w.

(** [RepeatFooter(props)]: the two buttons, each present only when it is
    rendered.  The add button carries [disabled={ disabled || readonly }];
    the collapse button has no such attribute and is given by its click
    handler. *)
Record footer := Footer {
  addButton : option button;
  collapseButton : option (world -> world)
}.

Definition RepeatFooter (p : props) (w : world) : footer :=
  {| addButton :=
       if showAddRemove p
       then Some {| disabled := p_disabled p || p_readonly p;
                    onClick := onAddItem p w |}
       else None;
     collapseButton := if collapseEnabled p w then Some (toggle p w) else None |}.

End Manager.

Arguments Change {item} _ _ _.
Arguments World {item data} _ _ _ _.

End Repeat.


(** ** big.js decimals and the JavaScript number conversions

    The number field computes with big.js ([Big]), an exact decimal
    arithmetic, and converts with the built-in [Number(...)].  Both are
    modelled: [Big] on exact decimals, the numbers of JavaScript as the
    values of the binary64 format, with the rounding of [Number(s)] and the
    shortest digits of [String(n)]. *)

Module BigJs.

(** The decimal [unscaled / 10^scale]. *)
Record Big := mkBig { unscaled : Z; scale : nat }.

Definition zero : Big := mkBig 0 0.
Definition one : Big := mkBig 1 0.

Definition pow10 (n : nat) : Z := 10 ^ Z.of_nat n.

(** big.js stores the digits without trailing zeros. *)
Fixpoint strip (c : Z) (s : nat) : Big :=
  match s with
  | O => mkBig c 0
  | S s' => if c mod 10 =? 0 then strip (c / 10) s' else mkBig c s
  end.

Definition normalize (b : Big) : Big := strip (unscaled b) (scale b).

Definition negate (b : Big) : Big := mkBig (- unscaled b) (scale b).

(** The numerator of [b] over the denominator [10^s], for [scale b <= s]. *)
Definition lift (s : nat) (b : Big) : Z := unscaled b * pow10 (s - scale b).

Definition common (a b : Big) : nat := Nat.max (scale a) (scale b).

(** [a.plus(b)] and [a.minus(b)] are exact. *)
Definition plus (a b : Big) : Big :=
  let s := common a b in strip (lift s a + lift s b) s.

Definition minus (a b : Big) : Big :=
  let s := common a b in strip (lift s a - lift s b) s.

(** [a.mod(b)]: big.js computes [a - b * trunc(a / b)], the quotient being
    rounded towards zero, so the result has the sign of [a]; it throws
    on a zero divisor ([None]). *)
Definition mod_ (a b : Big) : option Big :=
  let s := common a b in
  if unscaled b =? 0 then None
  else Some (strip (Z.rem (lift s a) (lift s b)) s).

(** [a.cmp(b)]: [-1], [0] or [1]. *)
Definition cmp (a b : Big) : Z :=
  let s := common a b in
  match lift s a ?= lift s b with
  | Lt => -1
  | Eq => 0
  | Gt => 1
  end.

Definition eqb (a b : Big) : bool := cmp a b =? 0.

(** *** Decimal text *)

Definition digit_char (d : Z) : ascii := ascii_of_N (Z.to_N (48 + d)).

Definition digit_of (c : ascii) : option Z :=
  let n := Z.of_N (N_of_ascii c) in
  if (48 <=? n) && (n <=? 57) then Some (n - 48) else None.

Definition is_digit (c : ascii) : bool :=
  match digit_of c with Some _ => true | None => false end.

(** The decimal digits of [n >= 0], most significant first. *)
Fixpoint digits_go (fuel : nat) (n : Z) (acc : list ascii) : list ascii :=
  match fuel with
  | O => acc
  | S f =>
      let acc' := digit_char (n mod 10) :: acc in
      if n <? 10 then acc' else digits_go f (n / 10) acc'
  end.

Definition digits (n : Z) : list ascii :=
  digits_go (S (Z.to_nat (Z.log2 n))) n [].

(** Reading digits, most significant first. *)
Definition digit_step (a : Z) (c : ascii) : Z := a * 10 + default 0 (digit_of c).

Definition digits_value (l : list ascii) : Z := foldl digit_step 0 l.

(** The digits of [c], padded with zeros to more than [s] places. *)
Definition padded (c : Z) (s : nat) : list ascii :=
  replicate (S s - length (digits c)) "0"%char ++ digits c.

(** Normal (non-exponential) notation of [c / 10^s] for [c >= 0]. *)
Definition render_abs (c : Z) (s : nat) : list ascii :=
  let ds := padded c s in
  if (s =? 0)%nat then ds
  else take (length ds - s) ds ++ "."%char :: drop (length ds - s) ds.

Definition render (b : Big) : list ascii :=
  let b := normalize b in
  let body := render_abs (Z.abs (unscaled b)) (scale b) in
  if unscaled b <? 0 then "-"%char :: body else body.

(** [b.toFixed()] without arguments: normal notation, exact. *)
Definition toFixed (b : Big) : string := string_of_list_ascii (render b).

(** *** Parsing

    big.js accepts an optional minus sign, then either digits with an
    optional point and optional further digits, or a point followed by
    digits, then an optional exponent: [e] or [E], an optional sign and
    digits. *)

Fixpoint span_digits (l : list ascii) : list ascii * list ascii :=
  match l with
  | c :: r =>
      if is_digit c
      then let (d, r') := span_digits r in (c :: d, r')
      else ([], l)
  | [] => ([], [])
  end.

(** A text that does not go on with a digit. *)
Definition stops (rest : list ascii) : Prop :=
  match rest with
  | [] => True
  | c :: _ => is_digit c = false
  end.

Definition nonempty {A} (l : list A) : bool :=
  match l with [] => false | _ :: _ => true end.

(** The decimal whose digit string is [ds], with [fraclen] of the digits
    after the point, times [10^e]. *)
Definition of_parts (ds : list ascii) (fraclen : nat) (e : Z) : Big :=
  let c := digits_value ds in
  let sc := Z.of_nat fraclen - e in
  if sc <? 0 then mkBig (c * 10 ^ (- sc)) 0 else strip c (Z.to_nat sc).

Definition is_e (c : ascii) : bool :=
  (Ascii.eqb c "e" || Ascii.eqb c "E")%char.

(** The optional exponent part, up to the end of the text. *)
Definition parse_exponent (l : list ascii) : option Z :=
  match l with
  | [] => Some 0
  | c :: r =>
      if is_e c then
        let '(neg, r) :=
          match r with
          | "+"%char :: r' => (false, r')
          | "-"%char :: r' => (true, r')
          | _ => (false, r)
          end in
        let (ed, rest) := span_digits r in
        if nonempty ed && negb (nonempty rest)
        then Some (if neg then - digits_value ed else digits_value ed)
        else None
      else None
  end.

(** The unsigned part: mantissa and optional exponent. *)
Definition parse_unsigned (l : list ascii) : option Big :=
  let (ip, r1) := span_digits l in
  let '(fp, r2, ok) :=
    match r1 with
    | "."%char :: r =>
        let (fp, r2) := span_digits r in (fp, r2, nonempty ip || nonempty fp)
    | _ => ([], r1, nonempty ip)
    end in
  if ok
  then match parse_exponent r2 with
       | Some e => Some (of_parts (ip ++ fp) (length fp) e)
       | None => None
       end
  else None.

Definition parse (l : list ascii) : option Big :=
  match l with
  | "-"%char :: r => negate <$> parse_unsigned r
  | _ => parse_unsigned l
  end.

(** [Big(s)] for a string [s]; [None] when big.js throws. *)
Definition Big_of_string (s : string) : option Big :=
  parse (list_ascii_of_string s).

End BigJs.


(** ** JavaScript values and conversions used by the number field *)

Module Js.
Import BigJs.

(** A JavaScript number is a value of the IEEE 754 binary64 format: [NaN],
    an infinity, a zero of either sign, or [± m · 2^e]. *)
Inductive jsnum :=
| NaN
| Infinity (negative : bool)
| Zero (negative : bool)
| Finite (negative : bool) (m : positive) (e : Z).


Inductive value :=
| VUndefined
| VNull
| VBool (b : bool)
| VNum (n : jsnum)
| VStr (s : string).

Definition isNaN (n : jsnum) : bool :=
  match n with NaN => true | _ => false end.


Definition negate_number (n : jsnum) : jsnum :=
  match n with
  | NaN => NaN
  | Infinity s => Infinity (negb s)
  | Zero s => Zero (negb s)
  | Finite s m e => Finite (negb s) m e
  end.

(** *** Rounding a rational to the nearest number *)

(** The fraction [n / d] times [2^k]. *)
Definition scale2 (n d k : Z) : Z * Z :=
  (n * 2 ^ Z.max k 0, d * 2 ^ Z.max (- k) 0).

(** The integer nearest to [n / d]; of two that are equally near, the
    even one. *)
Definition nearest (n d : Z) : Z :=
  let q := n / d in
  match 2 * (n mod d) ?= d with
  | Lt => q
  | Gt => q + 1
  | Eq => if Z.even q then q else q + 1
  end.

(** The integer part of the binary logarithm of [n / d], for positive [n]
    and [d]: that of the integer part of [n / d · 2^k], less [k], for a
    [k] with [d < 2^k]. *)
Definition ilog2 (n d : Z) : Z :=
  let k := Z.log2 d + 1 in
  Z.log2 (n * 2 ^ k / d) - k.

(** The number nearest to [± n / d] for [n >= 0] and [d > 0], as the
    conversions of ECMAScript round: to the nearest value of the format,
    to the one with the even mantissa when two are equally near, to an
    infinity from [2^1024 - 2^970] on, to a zero below half of the least
    subnormal number. *)
Definition round (negative : bool) (n d : Z) : jsnum :=
  if n <=? 0 then Zero negative
  else
    let e := Z.max (ilog2 n d - 52) (-1074) in
    let '(a, b) := scale2 n d (- e) in
    let m := nearest a b in
    let '(m, e) := if m =? 2 ^ 53 then (2 ^ 52, e + 1) else (m, e) in
    match m with
    | Z.pos m => if 971 <? e then Infinity negative else Finite negative m e
    | _ => Zero negative
    end.

(** The Number value of a decimal. *)
Definition Number_value (b : Big) : jsnum :=
  round (unscaled b <? 0) (Z.abs (unscaled b)) (pow10 (scale b)).

(** *** [Number(s)] for a string [s]

    A text is a sequence of characters below U+0100.  White space of the
    string-to-number grammar in that range: tab, line feed, vertical tab,
    form feed, carriage return, space, no-break space. *)
Definition is_space (c : ascii) : bool :=
  let n := N_of_ascii c in
  ((9 <=? n) && (n <=? 13) || (n =? 32) || (n =? 160))%N.

Fixpoint ltrim (l : list ascii) : list ascii :=
  match l with
  | c :: r => if is_space c then ltrim r else l
  | [] => []
  end.

(** Drop the trailing characters that satisfy [p]. *)
Fixpoint rstrip (p : ascii -> bool) (l : list ascii) : list ascii :=
  match l with
  | [] => []
  | c :: r =>
      let r' := rstrip p r in
      if p c && negb (nonempty r') then [] else c :: r'
  end.

Definition trim (l : list ascii) : list ascii := rstrip is_space (ltrim l).

(** The value of a digit in the given radix: [0-9], [a-z] or [A-Z]. *)
Definition digit_in (radix : Z) (c : ascii) : option Z :=
  let n := Z.of_N (N_of_ascii c) in
  let v := if (48 <=? n) && (n <=? 57) then n - 48
           else if (97 <=? n) && (n <=? 122) then n - 87
           else if (65 <=? n) && (n <=? 90) then n - 55
           else radix in
  if v <? radix then Some v else None.

Fixpoint radix_value (radix acc : Z) (l : list ascii) : option Z :=
  match l with
  | [] => Some acc
  | c :: r =>
      match digit_in radix c with
      | Some v => radix_value radix (acc * radix + v) r
      | None => None
      end
  end.

(** The radix that the second character of a [0x], [0o] or [0b] literal
    announces. *)
Definition radix_of (c : ascii) : option Z :=
  if (Ascii.eqb c "x" || Ascii.eqb c "X")%char then Some 16
  else if (Ascii.eqb c "o" || Ascii.eqb c "O")%char then Some 8
  else if (Ascii.eqb c "b" || Ascii.eqb c "B")%char then Some 2
  else None.

(** A hexadecimal, octal or binary integer literal: the prefix and at
    least one digit, no sign. *)
Definition nondecimal (l : list ascii) : option Z :=
  match l with
  | "0"%char :: p :: (_ :: _) as ds =>
      match radix_of p with
      | Some radix => radix_value radix 0 ds
      | None => None
      end
  | _ => None
  end.

(** A decimal literal without its sign: [Infinity], or digits with an
    optional point and an optional exponent, as big.js reads them. *)
Definition unsigned_number (l : list ascii) : jsnum :=
  if String.eqb (string_of_list_ascii l) "Infinity" then Infinity false
  else match parse_unsigned l with
       | Some b => Number_value b
       | None => NaN
       end.

(** A decimal literal with its optional sign. *)
Definition signed_number (l : list ascii) : jsnum :=
  match l with
  | "+"%char :: r => unsigned_number r
  | "-"%char :: r => negate_number (unsigned_number r)
  | _ => unsigned_number l
  end.

(** A numeric literal: hexadecimal, octal or binary, or else decimal. *)
Definition numeric_literal (l : list ascii) : jsnum :=
  match nondecimal l with
  | Some n => round false n 1
  | None => signed_number l
  end.

(** [Number(s)]: surrounding white space is ignored and the empty text is
    [0]; what is left is a numeric literal, or else the result is
    [NaN]. *)
Definition Number_of_string (s : string) : jsnum :=
  let t := trim (list_ascii_of_string s) in
  if nonempty t then numeric_literal t else Zero false.

(** *** [String(n)] for a number [n] *)

(** The decimal that [m · 2^e] is, exactly. *)
Definition exact (m : positive) (e : Z) : Big :=
  if 0 <=? e then mkBig (Z.pos m * 2 ^ e) 0
  else mkBig (Z.pos m * 5 ^ (- e)) (Z.to_nat (- e)).

(** Structural equality of numbers. *)
Definition same (x y : jsnum) : bool :=
  match x, y with
  | NaN, NaN => true
  | Infinity a, Infinity b | Zero a, Zero b => Bool.eqb a b
  | Finite a m e, Finite b m' e' => Bool.eqb a b && (m =? m')%positive && (e =? e')
  | _, _ => false
  end.

(** The digits that [String(n)] prints for [x = m · 2^e]: the decimal
    with the fewest significant digits whose Number value is [x]; of
    several with that many digits, the one nearest to [x], and the even
    one of two equally near.  The decimals of [k] digits nearest to the
    exact expansion [u / 10^s] of [x] are its truncation [lo] to [k]
    digits and [hi], one unit of the last kept digit above; [cut] is the
    number of digits dropped.  The expansion itself ends the search. *)
Fixpoint shortest_from (x : jsnum) (u : Z) (s : nat) (cut : nat) : Big :=
  match cut with
  | O => mkBig u s
  | S cut' =>
      let unit := pow10 cut in
      let lo := u / unit * unit in
      let hi := lo + unit in
      let reads c := same (round false c (pow10 s)) x in
      match reads lo, reads hi with
      | true, true =>
          match u - lo ?= hi - u with
          | Lt => mkBig lo s
          | Gt => mkBig hi s
          | Eq => mkBig (if Z.even (u / unit) then lo else hi) s
          end
      | true, false => mkBig lo s
      | false, true => mkBig hi s
      | false, false => shortest_from x u s cut'
      end
  end.

Definition shortest (m : positive) (e : Z) : Big :=
  let b := exact m e in
  shortest_from (Finite false m e) (unscaled b) (scale b)
    (length (digits (unscaled b)) - 1).

(** The notation of [String(n)] for the decimal [b]: plain decimal
    notation when the decimal point falls within 21 digits to the right or
    6 to the left of the first significant digit, exponential notation
    otherwise. *)
Definition decimal_toString (b : Big) : string :=
  let b := normalize b in
  let ds := digits (Z.abs (unscaled b)) in
  let point := Z.of_nat (length ds) - Z.of_nat (scale b) in
  if (unscaled b =? 0) || ((-6 <? point) && (point <=? 21)) then toFixed b
  else
    let sig := rstrip (Ascii.eqb "0") ds in
    let mantissa :=
      match sig with
      | d :: (_ :: _) as rest => d :: "."%char :: rest
      | _ => sig
      end in
    let e := point - 1 in
    string_of_list_ascii
      ((if unscaled b <? 0 then ["-"%char] else [])
       ++ mantissa ++ "e"%char
       :: (if e <? 0 then "-"%char else "+"%char) :: digits (Z.abs e)).

Definition Number_toString (n : jsnum) : string :=
  match n with
  | NaN => "NaN"
  | Infinity negative => if negative then "-Infinity" else "Infinity"
  | Zero _ => "0"
  | Finite negative m e =>
      decimal_toString (if negative then negate (shortest m e) else shortest m e)
  end.

(** *** Values *)

(** [Number(v)] *)
Definition ToNumber (v : value) : jsnum :=
  match v with
  | VUndefined => NaN
  | VNull => Zero false
  | VBool b => if b then Number_value one else Zero false
  | VNum n => n
  | VStr s => Number_of_string s
  end.

(** [String(v)]; on numbers and strings this is also [v.toString()]. *)
Definition ToString (v : value) : string :=
  match v with
  | VUndefined => "undefined"
  | VNull => "null"
  | VBool b => if b then "true" else "false"
  | VNum n => Number_toString n
  | VStr s => s
  end.

(** Truthiness. *)
Definition truthy (v : value) : bool :=
  match v with
  | VUndefined | VNull => false
  | VBool b => b
  | VNum (NaN | Zero _) => false
  | VNum _ => true
  | VStr s => negb (String.eqb s "")
  end.

(** The decimal that a finite number is; [None] for [NaN] and the
    infinities. *)
Definition decimal_of (x : jsnum) : option Big :=
  match x with
  | Zero _ => Some zero
  | Finite negative m e =>
      Some (normalize (if negative then negate (exact m e) else exact m e))
  | _ => None
  end.

(** [x === y] and [x < y] on numbers: by value, the two zeros being
    equal and [NaN] comparing false with everything. *)
Definition number_eqb (x y : jsnum) : bool :=
  match x, y with
  | Infinity a, Infinity b => Bool.eqb a b
  | _, _ =>
      match decimal_of x, decimal_of y with
      | Some a, Some b => BigJs.eqb a b
      | _, _ => false
      end
  end.

Definition number_ltb (x y : jsnum) : bool :=
  match x, y with
  | NaN, _ | _, NaN => false
  | Infinity a, Infinity b => a && negb b
  | Infinity a, _ => a
  | _, Infinity b => negb b
  | _, _ =>
      match decimal_of x, decimal_of y with
      | Some a, Some b => cmp a b =? -1
      | _, _ => false
      end
  end.

(** [a === b] *)
Definition strict_eq (a b : value) : bool :=
  match a, b with
  | VUndefined, VUndefined => true
  | VNull, VNull => true
  | VBool x, VBool y => Bool.eqb x y
  | VNum x, VNum y => number_eqb x y
  | VStr x, VStr y => String.eqb x y
  | _, _ => false
  end.

(** [s.replaceAll(a, b)] for one-character [a] and [b]. *)
Fixpoint replaceAll (a b : ascii) (s : string) : string :=
  match s with
  | EmptyString => EmptyString
  | String c r => String (if Ascii.eqb c a then b else c) (replaceAll a b r)
  end.

(** [Big(v)]; [None] when big.js throws ("Invalid number").  big.js
    parses a string as it is and [String(v)] for any other value, except
    that it reads the number [-0] as "-0". *)
Definition Big_of_value (v : value) : option Big :=
  match v with
  | VNum (Zero true) => Big_of_string "-0"
  | _ => Big_of_string (ToString v)
  end.

(** The characters of a printed decimal: digits, the point, the sign. *)
Definition decimal_char (c : ascii) : bool :=
  is_digit c || Ascii.eqb c "." || Ascii.eqb c "-".

End Js.

(** ** Number.js *)

Module NumberField.
Import BigJs Js.

(** The attributes of the field definition that [Numberfield] reads.
    [incrementValue] is the [increment] attribute. *)
Record field := Field {
  decimalDigits : option Z;
  serializeToString : bool;
  incrementValue : value
}.

Record props := Props {
  p_field : field;
  p_value : value;
  p_readonly : bool
}.

(** Modelled from the spec: [isNullEquivalentValue] of
    [util/numberFieldUtil] is not among the sources.  The spec calls its
    inputs "null/empty": the absent values and the empty text. *)
Definition isNullEquivalentValue (v : value) : bool :=
  match v with
  | VUndefined | VNull => true
  | VStr s => String.eqb s ""
  | _ => false
  end.

(** Modelled from the spec: [isValidNumber] of [util/numberFieldUtil] is
    not among the sources.  The spec: a value is numeric when it is a
    number or parses as one; the "NaN" sentinel, the empty text, absent
    and other non-numeric values are not. *)
Definition isValidNumber (v : value) : bool :=
  match v with
  | VNum n => negb (isNaN n)
  | VStr s => negb (String.eqb s "") && negb (isNaN (Number_of_string s))
  | _ => false
  end.

(** [Numberfield.config.sanitizeValue({ value, formField })] *)
Definition sanitizeValue (formField : field) (v : value) : value :=
  if isNullEquivalentValue v || negb (isValidNumber v) then VNull
  else if serializeToString formField then VStr (ToString v)
  else VNum (ToNumber v).

(** *** The component: text cache, emissions, exceptions *)

(** What the handlers change: the [stringValueCache] state, the values
    passed to [props.onChange] so far (oldest first) and whether
    [e.preventDefault()] was called on the event being handled. *)
Record state := State {
  stringValueCache : string;
  onChangeCalls : list value;
  defaultPrevented : bool
}.

(** A handler runs on the state and either throws ([None]) or returns. *)
Definition M (A : Type) : Type := state -> option (A * state).

#[global] Instance M_ret : MRet M := fun A a st => Some (a, st).

#[global] Instance M_bind : MBind M := fun A B k m st =>
  match m st with
  | Some (a, st') => k a st'
  | None => None
  end.

Definition throw {A} : M A := fun _ => None.

Definition orThrow {A} (o : option A) : M A :=
  match o with Some a => mret a | None => throw end.

Definition setStringValueCache (s : string) : M unit :=
  fun st => Some (tt, {| stringValueCache := s;
                         onChangeCalls := onChangeCalls st;
                         defaultPrevented := defaultPrevented st |}).

(** [onChange({ field, value })] *)
Definition onChange (v : value) : M unit :=
  fun st => Some (tt, {| stringValueCache := stringValueCache st;
                         onChangeCalls := onChangeCalls st ++ [v];
                         defaultPrevented := defaultPrevented st |}).

Definition preventDefault : M unit :=
  fun st => Some (tt, {| stringValueCache := stringValueCache st;
                         onChangeCalls := onChangeCalls st;
                         defaultPrevented := true |}).

Definition cacheValueMatchesState (p : props) (cache : string) : bool :=
  strict_eq (sanitizeValue (p_field p) (p_value p))
            (sanitizeValue (p_field p) (VStr cache)).

(** [displayValue]; [None] when [Big(value)] throws. *)
Definition displayValue (p : props) (cache : string) : option string :=
  if strict_eq (p_value p) (VStr "NaN") then Some "NaN"
  else if String.eqb cache "-" then Some "-"
  else if cacheValueMatchesState p cache then Some cache
  else if truthy (p_value p) || strict_eq (p_value p) (VNum (Zero false))
       then toFixed <$> Big_of_value (p_value p)
       else Some "".

(** The text that the template literal prints for an integer. *)
Definition int_text (d : Z) : string :=
  string_of_list_ascii
    (if d <? 0 then "-"%char :: digits (- d) else digits d).

Definition arrowIncrementValue (f : field) : option Big :=
  if truthy (incrementValue f) then Big_of_value (incrementValue f)
  else match decimalDigits f with
       | Some d =>
           if d =? 0 then Big_of_string "1"
           else Big_of_string ("1e-" +:+ int_text d)
       | None => Big_of_string "1"
       end.

Definition setValue (f : field) (stringValue : value) : M unit :=
  if isNullEquivalentValue stringValue then
    setStringValueCache "" ;; onChange VNull
  else
    s ← orThrow (match stringValue with
                  | VStr s => Some (replaceAll "," "." s)
                  | _ => None
                  end);
    if String.eqb s "-" then setStringValueCache "-"
    else if isNaN (Number_of_string s) then
      setStringValueCache "NaN" ;; onChange (VStr "NaN")
    else
      setStringValueCache s ;;
      onChange (if serializeToString f then VStr s
                else VNum (Number_of_string s)).

(** [isValidNumber(value) ? Big(value) : Big(0)] *)
Definition base (p : props) : option Big :=
  if isValidNumber (p_value p) then Big_of_value (p_value p)
  else Big_of_value (VNum (Zero false)).

Definition increment (p : props) : M unit :=
  if p_readonly p then mret tt
  else
    b ← orThrow (base p);
    k ← orThrow (arrowIncrementValue (p_field p));
    m ← orThrow (mod_ b k);
    let stepFlooredValue := minus b m in
    setValue (p_field p) (VStr (toFixed (plus stepFlooredValue k))).

Definition decrement (p : props) : M unit :=
  if p_readonly p then mret tt
  else
    b ← orThrow (base p);
    k ← orThrow (arrowIncrementValue (p_field p));
    offset ← orThrow (mod_ b k);
    if cmp offset zero =? 0 then
      setValue (p_field p) (VStr (toFixed (minus b k)))
    else
      m ← orThrow (mod_ b k);
      let stepFlooredValue := minus b m in
      setValue (p_field p) (VStr (toFixed stepFlooredValue)).

(** [onKeyDown(e)], by [e.code]. *)
Definition onKeyDown (p : props) (code : string) : M unit :=
  if strict_eq (p_value p) (VStr "NaN")
     && (String.eqb code "Backspace" || String.eqb code "Delete")
  then setValue (p_field p) VNull ;; preventDefault
  else if String.eqb code "ArrowUp" then increment p ;; preventDefault
  else if String.eqb code "ArrowDown" then decrement p ;; preventDefault
  else mret tt.

(** [onInput(e)] with [e.target.value]. *)
Definition onInput (p : props) (text : string) : M unit :=
  setValue (p_field p) (VStr text).

(** The state in which an event handler starts: the given cache, nothing
    emitted yet, default not prevented. *)
Definition initial (cache : string) : state :=
  {| stringValueCache := cache; onChangeCalls := []; defaultPrevented := false |}.

(** The values that the spec allows in form state: [null], a number, a
    numeric text, or the "NaN" sentinel. *)
Definition canonical (v : value) : bool :=
  match v with
  | VNull => true
  | VNum n => negb (isNaN n)
  | VStr s => String.eqb s "NaN" || negb (isNaN (Number_of_string s))
  | _ => false
  end.

(** The state after a handler that sets the cache to [cache] and passes
    the values [vs] to [onChange]. *)
Definition after (st : state) (cache : string) (vs : list value) : state :=
  {| stringValueCache := cache;
     onChangeCalls := onChangeCalls st ++ vs;
     defaultPrevented := defaultPrevented st |}.

End NumberField.


(** ** Concrete inputs used in the examples below *)

Module Samples.
Import BigJs Js.

(** A form whose data is the repeated array itself (or nothing), with
    natural numbers as items; a new item is initialised to 100 plus its
    index. *)
Definition samplePath (f : Repeat.field) (indexes : gmap string Z) : unit := tt.

Definition sampleGet (d : option (list nat)) (_ : unit) : option (list nat) := d.

Definition sampleInit (d : option (list nat)) (f : Repeat.field)
    (indexes : gmap string Z) : nat :=
  (100 + Z.to_nat (default 0%Z (indexes !! Repeat.id f)))%nat.

Definition repeatField (cap : option Z) : Repeat.field :=
  {| Repeat.id := "list";
     Repeat.disableCollapse := false;
     Repeat.nonCollapsedItems := cap;
     Repeat.allowAddRemove := true;
     Repeat.components := Some ["child"] |}.

Definition repeatProps (cap : option Z) : Repeat.props :=
  {| Repeat.p_field := repeatField cap; Repeat.p_indexes := ∅;
     Repeat.p_readonly := false; Repeat.p_disabled := false |}.

Definition repeatWorld (items : list nat) (collapsed : bool)
    : Repeat.world (item := nat) (data := option (list nat)) :=
  {| Repeat.formData := Some items;
     Repeat.sharedRepeatState := {| Repeat.isCollapsed := collapsed |};
     Repeat.onChangeCalls := [];
     Repeat.shouldScroll := false |}.

(** Number fields: plain, with two decimal digits, and with two decimal
    digits serialized to strings. *)
Definition plainField : NumberField.field :=
  {| NumberField.decimalDigits := None;
     NumberField.serializeToString := false;
     NumberField.incrementValue := VUndefined |}.

Definition centsField (asString : bool) : NumberField.field :=
  {| NumberField.decimalDigits := Some 2;
     NumberField.serializeToString := asString;
     NumberField.incrementValue := VUndefined |}.

Definition numberProps (f : NumberField.field) (v : value) : NumberField.props :=
  {| NumberField.p_field := f;
     NumberField.p_value := v;
     NumberField.p_readonly := false |}.

(** The numbers [5] and [-1.5]. *)
Definition five : value := VNum (Number_value (mkBig 5 0)).
Definition minusOneAndHalf : value := VNum (Number_value (mkBig (-15) 1)).

End Samples.


(** ** Number.js: what the arrows emit and the next render *)

Module Stepping.
Import BigJs Js NumberField.

(** What [setValue] passes to [onChange] for the text of the decimal [r]:
    the text itself with [serializeToString], [Number] of the text
    otherwise. *)
Definition emission (f : field) (r : Big) : value :=
  if serializeToString f then VStr (toFixed r)
  else VNum (Number_of_string (toFixed r)).

(** The emitted value is read back by big.js as the decimal [r] that it
    was computed from.  A text always is; a number is when the double
    nearest to [r] prints as [r] again. *)
Definition reads_back (f : field) (r : Big) : Prop :=
  Big_of_value (emission f r) = Some (normalize r).

(** The props of the next render, with the emitted value in form state. *)
Definition rerender (p : props) (v : value) : props :=
  {| p_field := p_field p; p_value := v; p_readonly := p_readonly p |}.

(** Normal form of a decimal: no trailing zero after the point. *)
Definition normal (b : Big) : Prop :=
  scale b = 0%nat \/ unscaled b mod 10 <> 0.

End Stepping.

(** ** The characters of printed numbers *)

Module JsMore.
Import BigJs Js.
(** The characters of a printed number: those of a decimal, the exponent
    mark and the plus sign. *)
Definition number_char (c : ascii) : bool :=
  decimal_char c || Ascii.eqb c "e" || Ascii.eqb c "+".
End JsMore.

(** ** HeightEntry.js: the validation of the height *)

Module HeightEntry.
Import BigJs Js.

(** [v < n] for a number [n]: [v] is converted to a number, and the
    comparison is false when that is [NaN]. *)
Definition lessThan (v : value) (n : jsnum) : bool :=
  number_ltb (ToNumber v) n.

(** [Number.isInteger(v)]: only finite numbers qualify, without
    conversion. *)
Definition isInteger (v : value) : bool :=
  match v with
  | VNum x =>
      match decimal_of x with
      | Some b => (scale b =? 0)%nat
      | None => false
      end
  | _ => false
  end.

(** The [validate] function that [Height] hands to [NumberFieldEntry]:
    the error message, or [None] when it returns nothing. *)
Definition validate (v : value) : option string :=
  if strict_eq v VUndefined || strict_eq v VNull then None
  else if lessThan v (Number_value one) then Some "Should be greater than zero."
  else if negb (isInteger v) then Some "Should be an integer."
  else None.

End HeightEntry.

(** ** RepeatRenderManager.js: [isFieldRepeating] *)

Module FieldRepeating.

(** What [isFieldRepeating] reads of a registered form field and of the
    definition of its type; the two flags by their truthiness. *)
Record formField := FormField { type : string; isRepeating : bool }.

Record formFieldDefinition := Definition_ { repeatable : bool }.

Section Registries.
(** [formFieldRegistry.get] and [formFields.get]; [None] when the lookup
    yields [undefined]. *)
Variable registry_get : string -> option formField.
Variable formFields_get : string -> option formFieldDefinition.

(** [isFieldRepeating(id)]; the id is [None] when absent, the result is
    [None] when a property of [undefined] is read (a TypeError). *)
Definition isFieldRepeating (id : option string) : option bool :=
  match id with
  | None => Some false
  | Some i =>
      if String.eqb i "" then Some false
      else
        formField ← registry_get i;
        formFieldDefinition ← formFields_get (type formField);
        Some (repeatable formFieldDefinition && isRepeating formField)
  end.

End Registries.

End FieldRepeating.

(** ** Datepicker.js: the handlers of the date input *)

Module Datepicker.

(** The calls that the handlers make on their collaborators. *)
Inductive effect :=
| Close            (* flatpickrInstance.close() *)
| Open             (* flatpickrInstance.open() *)
| DispatchEnter    (* dateInputRef.current.dispatchEvent(ENTER_KEYDOWN_EVENT) *)
| FocusDay         (* focusRelevantFlatpickerDay(flatpickrInstance) *)
| PreventDefault   (* e.preventDefault() *)
| DateTimeFocus    (* onDateTimeFocus(e) *)
| DateTimeBlur     (* onDateTimeBlur(e) *)
| SetDate          (* setDate(new Date(date)) *)
| InstanceSetDate. (* flatpickrInstance.setDate(date, true) *)

#[global] Instance effect_eq_dec : EqDecision effect.
Proof. solve_decision. Defined.

(** The component state that the handlers read and set, and the calls
    made so far (oldest first).  [hasInstance] tells whether
    [flatpickrInstance] is set. *)
Record state := State {
  hasInstance : bool;
  isInputDirty : bool;
  forceFocusCalendar : bool;
  effects : list effect
}.

Definition call (e : effect) (st : state) : state :=
  {| hasInstance := hasInstance st;
     isInputDirty := isInputDirty st;
     forceFocusCalendar := forceFocusCalendar st;
     effects := effects st ++ [e] |}.

Definition setIsInputDirty (b : bool) (st : state) : state :=
  {| hasInstance := hasInstance st;
     isInputDirty := b;
     forceFocusCalendar := forceFocusCalendar st;
     effects := effects st |}.

Definition setForceFocusCalendar (b : bool) (st : state) : state :=
  {| hasInstance := hasInstance st;
     isInputDirty := isInputDirty st;
     forceFocusCalendar := b;
     effects := effects st |}.

(** [onInputKeyDown(e)], by [e.code]; [isInputDirty] is the value of the
    render. *)
Definition onInputKeyDown (code : string) (st : state) : state :=
  if negb (hasInstance st) then st
  else
    let dirty := isInputDirty st in
    let st := if String.eqb code "Escape" then call Close st else st in
    let st :=
      if String.eqb code "ArrowDown" then
        let st :=
          if dirty then
            setForceFocusCalendar true
              (setIsInputDirty false (call DispatchEnter st))
          else call FocusDay st in
        call PreventDefault st
      else st in
    if String.eqb code "Enter" then setIsInputDirty false st else st.

(** [onInputFocus(e)]; [fromInside] is
    [focusScopeRef.current.contains(e.relatedTarget)]. *)
Definition onInputFocus (readonly fromInside : bool) (st : state) : state :=
  if negb (hasInstance st) || fromInside || readonly then st
  else call DateTimeFocus (call Open st).

(** [onInputBlur(e)]; [toCalendarDay] is the [isFalseBlur] of the
    source. *)
Definition onInputBlur (toCalendarDay : bool) (st : state) : state :=
  if toCalendarDay then st
  else
    let st :=
      if isInputDirty st
      then setIsInputDirty false (call DispatchEnter st)
      else st in
    call DateTimeBlur st.

(** [onInput] of the text input. *)
Definition onInput (st : state) : state := setIsInputDirty true st.

(** [onMouseDown] of the text input; reading [isOpen] of a missing
    instance throws ([None]). *)
Definition onMouseDown (readonly isOpen : bool) (st : state) : option state :=
  if negb (hasInstance st) then None
  else if negb isOpen && negb readonly then Some (call Open st)
  else Some st.

(** The [onChange] hooks of the flatpickr instance. *)
Definition onCalendarChange (st : state) : state :=
  setIsInputDirty false (call SetDate st).

(** [onCalendarMouseDown(e)]; [onDay] tells whether the target is a day
    of the calendar. *)
Definition onCalendarMouseDown (onDay : bool) (st : state) : state :=
  if onDay then setIsInputDirty false st else st.

(** [onCalendarFocusOut(e)]; [stays] tells whether the focus goes to the
    calendar or to the date input. *)
Definition onCalendarFocusOut (stays : bool) (st : state) : state :=
  if negb stays then call Close st else st.

(** The effect hook on the [date] prop: the date is written back to the
    flatpickr instance, if there is one. *)
Definition dateEffect (st : state) : state :=
  if negb (hasInstance st) then st
  else setIsInputDirty false (call InstanceSetDate st).

(** The effect hook on [forceFocusCalendar], run after a render. *)
Definition focusEffect (st : state) : state :=
  if negb (forceFocusCalendar st) then st
  else setForceFocusCalendar false (call FocusDay st).

(** The events of the component. *)
Inductive event :=
| KeyDown (code : string)
| Focus (fromInside : bool)
| Blur (toCalendarDay : bool)
| Input
| MouseDown (isOpen : bool)
| CalendarChange
| CalendarMouseDown (onDay : bool)
| CalendarFocusOut (stays : bool)
| DateChanged.

(** One event, handled and followed by the render's effect hook. *)
Definition handle (readonly : bool) (e : event) (st : state) : option state :=
  focusEffect <$>
    match e with
    | KeyDown code => Some (onInputKeyDown code st)
    | Focus fromInside => Some (onInputFocus readonly fromInside st)
    | Blur toCalendarDay => Some (onInputBlur toCalendarDay st)
    | Input => Some (onInput st)
    | MouseDown isOpen => onMouseDown readonly isOpen st
    | CalendarChange => Some (onCalendarChange st)
    | CalendarMouseDown onDay => Some (onCalendarMouseDown onDay st)
    | CalendarFocusOut stays => Some (onCalendarFocusOut stays st)
    | DateChanged => Some (dateEffect st)
    end.

End Datepicker.

(** ** More concrete inputs *)

Module MoreSamples.
Import BigJs Js.

(** A number field whose [increment] attribute is the text "0", and one
    with a negative [decimalDigits]. *)
Definition zeroStepField : NumberField.field :=
  {| NumberField.decimalDigits := None;
     NumberField.serializeToString := false;
     NumberField.incrementValue := VStr "0" |}.

Definition negativeDigitsField : NumberField.field :=
  {| NumberField.decimalDigits := Some (-2);
     NumberField.serializeToString := false;
     NumberField.incrementValue := VUndefined |}.

Definition readonlyProps (f : NumberField.field) (v : value) : NumberField.props :=
  {| NumberField.p_field := f;
     NumberField.p_value := v;
     NumberField.p_readonly := true |}.

(** The numbers [2], [0.5] and the step [0.01]. *)
Definition two : Big := mkBig 2 0.
Definition half : Big := mkBig 5 1.
Definition cent : Big := mkBig 1 2.

(** A readonly repeated list. *)
Definition readonlyRepeatProps : Repeat.props :=
  {| Repeat.p_field := Samples.repeatField None; Repeat.p_indexes := ∅;
     Repeat.p_readonly := true; Repeat.p_disabled := false |}.

(** A date picker that is set up, with or without unsubmitted text. *)
Definition picker (dirty : bool) : Datepicker.state :=
  {| Datepicker.hasInstance := true;
     Datepicker.isInputDirty := dirty;
     Datepicker.forceFocusCalendar := false;
     Datepicker.effects := [] |}.

End MoreSamples.

(** Closed goals about the definitions are settled by evaluation. *)
Ltac evaluate :=
  vm_compute;
  repeat match goal with
         | |- _ /\ _ => split
         | |- _ -> _ => intro
         end;
  first [ reflexivity | discriminate | congruence ].

(** ** Facts about the array primitives *)

Module JsArrayFacts.
Import JsArray.

Lemma relIndex_inside (len k : Z) : 0 <= k <= len -> relIndex len k = k.
Proof. unfold relIndex. destruct (Z.ltb_spec k 0); lia. Qed.

Lemma relIndex_beyond (len k : Z) : 0 <= len <= k -> relIndex len k = len.
Proof. unfold relIndex. destruct (Z.ltb_spec k 0); lia. Qed.

Lemma relIndex_negative (len k : Z) :
  k < 0 -> relIndex len k = Z.max (len + k) 0.
Proof. unfold relIndex. destruct (Z.ltb_spec k 0); lia. Qed.

Lemma slice_copy {A} (l : list A) : slice None None l = l.
Proof.
  unfold slice; simpl.
  rewrite !relIndex_inside by lia.
  rewrite Z.sub_0_r, Nat2Z.id. change (Z.to_nat 0) with 0%nat.
  rewrite drop_0. apply firstn_all.
Qed.

Lemma slice_prefix {A} (n : Z) (l : list A) :
  0 <= n -> slice (Some 0) (Some n) l = take (Z.to_nat n) l.
Proof.
  intros Hn. unfold slice; simpl.
  rewrite (relIndex_inside _ 0) by lia. rewrite Z.sub_0_r.
  change (Z.to_nat 0) with 0%nat. rewrite drop_0.
  destruct (Z.le_ge_cases n (Z.of_nat (length l))) as [Hle|Hge].
  - now rewrite relIndex_inside by lia.
  - rewrite relIndex_beyond by lia. rewrite Nat2Z.id.
    rewrite firstn_all. symmetry. apply firstn_all2. lia.
Qed.

Lemma slice_negative_end {A} (n : Z) (l : list A) :
  n < 0 ->
  slice (Some 0) (Some n) l = take (Z.to_nat (Z.of_nat (length l) + n)) l.
Proof.
  intros Hn. unfold slice; simpl.
  rewrite (relIndex_inside _ 0) by lia. rewrite Z.sub_0_r.
  change (Z.to_nat 0) with 0%nat. rewrite drop_0.
  rewrite relIndex_negative by lia. f_equal. lia.
Qed.

Lemma splice_in_range {A} (i : Z) (l : list A) :
  0 <= i < Z.of_nat (length l) ->
  splice i 1 l = take (Z.to_nat i) l ++ drop (S (Z.to_nat i)) l.
Proof.
  intros Hi. unfold splice.
  rewrite relIndex_inside by lia. do 2 f_equal. lia.
Qed.

Lemma splice_beyond {A} (i : Z) (l : list A) :
  Z.of_nat (length l) <= i -> splice i 1 l = l.
Proof.
  intros Hi. unfold splice.
  rewrite relIndex_beyond by lia.
  replace (Z.to_nat (_ + _)) with (length l) by lia.
  rewrite Nat2Z.id, firstn_all, skipn_all. apply app_nil_r.
Qed.

Lemma splice_negative {A} (i : Z) (l : list A) :
  i < 0 -> l <> [] ->
  let k := Z.to_nat (Z.max (Z.of_nat (length l) + i) 0) in
  splice i 1 l = take k l ++ drop (S k) l.
Proof.
  intros Hi Hl k. unfold splice.
  assert (0 < Z.of_nat (length l)) by (destruct l; [congruence|simpl; lia]).
  rewrite relIndex_negative by lia. fold k. do 2 f_equal. unfold k. lia.
Qed.

End JsArrayFacts.

(** ** Facts about RepeatRenderManager.js *)

Module RepeatFacts.
Import JsArray JsArrayFacts Repeat.

Section Manager.
Context {item data path : Type}.
Variable getValuePath : field -> gmap string Z -> path.
Variable get : data -> path -> option (list item).
Variable getInitializedFieldData : data -> field -> gmap string Z -> item.

#[local] Abbreviation values := (values getValuePath get).
#[local] Abbreviation collapseEnabled := (collapseEnabled getValuePath get).
#[local] Abbreviation displayValues := (displayValues getValuePath get).
#[local] Abbreviation Repeater := (Repeater getValuePath get).
#[local] Abbreviation onDeleteItem := (onDeleteItem getValuePath get).
#[local] Abbreviation removeButton := (removeButton getValuePath get).
#[local] Abbreviation removeItem := (removeItem getValuePath get).
#[local] Abbreviation onAddItem := (onAddItem getValuePath get getInitializedFieldData).
#[local] Abbreviation RepeatFooter := (RepeatFooter getValuePath get getInitializedFieldData).

(** The rows of the [Repeater] show [displayValues], in order. *)
Lemma Repeater_values (p : props) (w : world) :
  row_value <$> Repeater p w = displayValues p w.
Proof.
  unfold Repeat.Repeater. rewrite fmap_imap.
  rewrite (imap_ext _ (fun _ x => x)) by reflexivity.
  generalize (displayValues p w). intros l.
  induction l as [|x l IH]; [reflexivity|].
  rewrite imap_cons. f_equal. exact IH.
Qed.

Lemma Repeater_indexes (p : props) (w : world) (i : nat) (r : row) :
  Repeater p w !! i = Some r ->
  row_index r = Z.of_nat i
  /\ displayValues p w !! i = Some (row_value r)
  /\ row_indexes r = <[ id (p_field p) := Z.of_nat i ]> (p_indexes p).
Proof.
  unfold Repeat.Repeater. rewrite list_lookup_imap.
  destruct (displayValues p w !! i) as [x|]; simpl; [|discriminate].
  intros [= <-]. simpl. auto.
Qed.

Lemma collapseEnabled_iff (p : props) (w : world) :
  collapseEnabled p w = true <->
  _getNonCollapsedItems (p_field p) < Z.of_nat (length (values p w))
  /\ disableCollapse (p_field p) = false.
Proof.
  unfold Repeat.collapseEnabled.
  rewrite andb_true_iff, negb_true_iff, Z.gtb_lt. tauto.
Qed.

(** With a negative cap the collapsed view drops the last [-N] items
    instead of keeping the first [N]. *)
Lemma displayValues_negative_cap (p : props) (w : world) :
  _getNonCollapsedItems (p_field p) < 0 ->
  disableCollapse (p_field p) = false ->
  isCollapsed (sharedRepeatState w) = true ->
  displayValues p w =
  take (Z.to_nat (Z.of_nat (length (values p w))
                  + _getNonCollapsedItems (p_field p))) (values p w).
Proof.
  intros HN Hdis Hcol.
  unfold Repeat.displayValues, isCollapsedNow.
  destruct (collapseEnabled_iff p w) as [_ Hce].
  rewrite Hce by (split; [lia|exact Hdis]). rewrite Hcol. simpl.
  apply slice_negative_end. exact HN.
Qed.

(** C1 (as amended): with effective cap [N] and [L] items, the [Repeater]
    shows all items when [disableCollapse] is set or [L <= N]; otherwise
    it shows all items when the shared flag is not collapsed, and when it
    is collapsed it shows exactly the first [N] items ([min L N] of them)
    for a cap that is not negative, and the first [L + N] items (all but
    the last [-N]; [max (L + N) 0] of them) for a negative cap; collapsing
    is possible exactly when [L > N] and [disableCollapse] is not set. *)
Theorem Repeater_visible_slice (p : props) (w : world) :
  let N := _getNonCollapsedItems (p_field p) in
  let L := Z.of_nat (length (values p w)) in
  let visible := row_value <$> Repeater p w in
  (disableCollapse (p_field p) = true \/ L <= N -> visible = values p w)
  /\ (disableCollapse (p_field p) = false -> N < L ->
      (isCollapsed (sharedRepeatState w) = true ->
         (0 <= N ->
            visible = take (Z.to_nat N) (values p w)
            /\ Z.of_nat (length visible) = Z.min L N)
         /\ (N < 0 ->
            visible = take (Z.to_nat (L + N)) (values p w)
            /\ Z.of_nat (length visible) = Z.max (L + N) 0))
      /\ (isCollapsed (sharedRepeatState w) = false -> visible = values p w))
  /\ (collapseEnabled p w = true <->
      (N < L /\ disableCollapse (p_field p) = false)).
Proof.
  intros N L visible. subst visible. rewrite Repeater_values.
  pose proof (collapseEnabled_iff p w) as Hce. fold N L in Hce.
  split; [|split; [|exact Hce]].
  - intros Hoff. unfold Repeat.displayValues, isCollapsedNow.
    destruct (collapseEnabled p w) eqn:E; [|reflexivity].
    destruct Hce as [Hce _]. destruct (Hce eq_refl) as [Hlt Hdis].
    destruct Hoff as [Hd|Hle]; [congruence|lia].
  - intros Hdis Hlt. split.
    + intros Hcol. split; intros HN.
      * unfold Repeat.displayValues, isCollapsedNow. fold N.
        destruct Hce as [_ Hce]. rewrite (Hce (conj Hlt Hdis)), Hcol. simpl.
        rewrite slice_prefix by exact HN. split; [reflexivity|].
        rewrite length_take. fold L. lia.
      * rewrite displayValues_negative_cap by assumption. fold N L.
        split; [reflexivity|]. rewrite length_take. fold L. lia.
    + intros Hcol. unfold Repeat.displayValues, isCollapsedNow.
      now rewrite Hcol, andb_false_r.
Qed.

(** C7 (as amended): the effective cap is [nonCollapsedItems] whenever
    that is configured and not zero, negative values included, and 5 when
    it is absent or zero; the function is total, so nothing is raised. *)
Theorem getNonCollapsedItems_truthy (f : field) :
  (forall n, nonCollapsedItems f = Some n -> n <> 0 ->
     _getNonCollapsedItems f = n)
  /\ (nonCollapsedItems f = None \/ nonCollapsedItems f = Some 0 ->
     _getNonCollapsedItems f = 5).
Proof.
  unfold _getNonCollapsedItems. split.
  - intros n -> Hn. destruct (Z.eqb_spec n 0); [contradiction|reflexivity].
  - intros [-> | ->]; reflexivity.
Qed.

Lemma onDeleteItem_emits (p : props) (rendered w : world) (index : Z) :
  emitted {| cr_field := p_field p;
             cr_value := splice index 1 (values p rendered);
             cr_indexes := p_indexes p |}
          w (onDeleteItem p rendered index w).
Proof.
  unfold Repeat.onDeleteItem, emitted, onChange. simpl.
  rewrite slice_copy. auto.
Qed.

(** C8: for an index within [0, L) the remove handler at once calls
    [onChange] (exactly once, nothing else changes) with an array of
    length [L - 1] that is the old array without the element at that
    index, the other elements keeping their order. *)
Theorem onDeleteItem_in_range (p : props) (w : world) (index : Z) :
  let vs := values p w in
  let i := Z.to_nat index in
  0 <= index < Z.of_nat (length vs) ->
  exists updated,
    emitted {| cr_field := p_field p; cr_value := updated;
               cr_indexes := p_indexes p |}
            w (onDeleteItem p w index w)
    /\ updated = take i vs ++ drop (S i) vs
    /\ Z.of_nat (length updated) = Z.of_nat (length vs) - 1
    /\ (forall j, (j < i)%nat -> updated !! j = vs !! j)
    /\ (forall j, (i <= j)%nat -> updated !! j = vs !! S j).
Proof.
  intros vs i Hi. exists (splice index 1 vs).
  split; [apply onDeleteItem_emits|].
  rewrite splice_in_range by exact Hi. fold i.
  assert (Hlt : (i < length vs)%nat) by lia.
  split; [reflexivity|]. split; [|split].
  - rewrite length_app, length_take, length_drop. lia.
  - intros j Hj. rewrite lookup_app_l by (rewrite length_take; lia).
    apply lookup_take_lt. exact Hj.
  - intros j Hj. rewrite lookup_app_r by (rewrite length_take; lia).
    rewrite length_take, lookup_drop. f_equal. lia.
Qed.






(** C5: with [L] items the add handler calls [onChange] once with an array
    of length [L + 1] that is the old array followed by the item that the
    initializer returns for index [L]; it leaves the shared state expanded
    and raises the scroll flag. *)
Theorem onAddItem_appends (p : props) (w : world) :
  let vs := values p w in
  let newItem :=
    getInitializedFieldData (formData w) (p_field p)
      (<[ id (p_field p) := Z.of_nat (length vs) ]> (p_indexes p)) in
  let w' := onAddItem p w w in
  exists updated,
    onChangeCalls w' =
      onChangeCalls w ++ [ {| cr_field := p_field p; cr_value := updated;
                              cr_indexes := p_indexes p |} ]
    /\ length updated = S (length vs)
    /\ take (length vs) updated = vs
    /\ updated !! length vs = Some newItem
    /\ last updated = Some newItem
    /\ isCollapsed (sharedRepeatState w') = false
    /\ shouldScroll w' = true
    /\ formData w' = formData w.
Proof.
  intros vs newItem w'. exists (vs ++ [newItem]).
  subst w'. unfold Repeat.onAddItem, push. simpl.
  rewrite slice_copy. fold vs. fold newItem.
  split; [reflexivity|]. split; [|split; [|split; [|split]]].
  - rewrite length_app. simpl. lia.
  - rewrite take_app_length. reflexivity.
  - rewrite lookup_app_r by lia. now rewrite Nat.sub_diag.
  - apply last_snoc.
  - auto.
Qed.

(** C9: whenever the footer renders the collapse button, its handler
    yields a shared state whose [isCollapsed] is the negation of the
    previous one, and changes neither the form data nor the [onChange]
    record nor the scroll flag. *)
Theorem toggle_inverts (p : props) (w : world) (handler : world -> world) :
  collapseButton (RepeatFooter p w) = Some handler ->
  isCollapsed (sharedRepeatState (handler w))
    = negb (isCollapsed (sharedRepeatState w))
  /\ formData (handler w) = formData w
  /\ onChangeCalls (handler w) = onChangeCalls w
  /\ shouldScroll (handler w) = shouldScroll w.
Proof.
  unfold Repeat.RepeatFooter. simpl.
  destruct (collapseEnabled p w) eqn:E; [|discriminate].
  intros [= <-]. unfold toggle, setSharedRepeatState, isCollapsedNow. simpl.
  rewrite E. auto.
Qed.

(** Without the guard of the button the handler would not invert a
    collapsed flag: the handler negates the flag of the render, which
    is false whenever collapsing is not possible. *)
Lemma toggle_when_not_collapsible (p : props) (w : world) :
  collapseEnabled p w = false ->
  isCollapsed (sharedRepeatState (toggle getValuePath get p w w)) = true.
Proof.
  intros E. unfold toggle, setSharedRepeatState, isCollapsedNow. simpl.
  now rewrite E.
Qed.

End Manager.

End RepeatFacts.

(** ** Facts about the decimal text of big.js numbers *)

Module BigJsFacts.
Import BigJs.

Lemma digit_of_digit_char (d : Z) :
  0 <= d < 10 -> digit_of (digit_char d) = Some d.
Proof.
  intros H.
  assert (Hd : d = 0 \/ d = 1 \/ d = 2 \/ d = 3 \/ d = 4 \/ d = 5 \/ d = 6
               \/ d = 7 \/ d = 8 \/ d = 9) by lia.
  repeat (destruct Hd as [-> | Hd]; [reflexivity|]). subst. reflexivity.
Qed.

Lemma is_digit_digit_char (d : Z) : 0 <= d < 10 -> is_digit (digit_char d) = true.
Proof. intros H. unfold is_digit. now rewrite digit_of_digit_char. Qed.

Lemma digit_step_digit_char (a d : Z) : 0 <= d < 10 -> digit_step a (digit_char d) = a * 10 + d.
Proof. intros H. unfold digit_step. now rewrite digit_of_digit_char. Qed.

(** What a run of the digit printer adds in front of its accumulator. *)
Lemma digits_go_spec (fuel : nat) : forall (n : Z) (acc : list ascii),
  (0 < fuel)%nat -> 0 <= n < 2 ^ Z.of_nat fuel ->
  exists ds,
    digits_go fuel n acc = ds ++ acc
    /\ Forall (fun c => is_digit c = true) ds
    /\ ds <> []
    /\ forall a, foldl digit_step a ds = a * 10 ^ Z.of_nat (length ds) + n.
Proof.
  induction fuel as [|f IH]; intros n acc Hf Hn; [lia|].
  simpl. assert (Hmod : 0 <= n mod 10 < 10) by (apply Z.mod_pos_bound; lia).
  destruct (Z.ltb_spec n 10) as [Hlt|Hge].
  - exists [digit_char (n mod 10)]. repeat split.
    + repeat constructor. now apply is_digit_digit_char.
    + discriminate.
    + intros a. simpl. rewrite digit_step_digit_char by exact Hmod.
      rewrite Z.mod_small by lia. lia.
  - assert (Hf' : (0 < f)%nat).
    { destruct f; [|lia]. simpl in Hn. lia. }
    assert (Hq : 0 <= n / 10 < 2 ^ Z.of_nat f).
    { split; [apply Z.div_pos; lia|].
      apply Z.div_lt_upper_bound; [lia|].
      rewrite Nat2Z.inj_succ, Z.pow_succ_r in Hn by lia. lia. }
    destruct (IH (n / 10) (digit_char (n mod 10) :: acc) Hf' Hq)
      as (ds & Heq & Hall & Hne & Hval).
    exists (ds ++ [digit_char (n mod 10)]). repeat split.
    + rewrite Heq, <- app_assoc. reflexivity.
    + apply Forall_app. split; [exact Hall|].
      repeat constructor. now apply is_digit_digit_char.
    + destruct ds; discriminate.
    + intros a. rewrite foldl_app. simpl. rewrite Hval.
      rewrite digit_step_digit_char by exact Hmod.
      rewrite length_app, Nat2Z.inj_add, Z.pow_add_r by lia. simpl.
      pose proof (Z.div_mod n 10). lia.
Qed.

Lemma digits_spec (n : Z) :
  0 <= n ->
  Forall (fun c => is_digit c = true) (digits n)
  /\ digits n <> []
  /\ digits_value (digits n) = n.
Proof.
  intros Hn. unfold digits.
  assert (Hb : 0 <= n < 2 ^ Z.of_nat (S (Z.to_nat (Z.log2 n)))).
  { split; [exact Hn|].
    rewrite Nat2Z.inj_succ, Z2Nat.id by apply Z.log2_nonneg.
    destruct (Z.eq_dec n 0) as [->|Hz]; [reflexivity|].
    apply Z.log2_spec. lia. }
  destruct (digits_go_spec _ n [] (Nat.lt_0_succ _) Hb)
    as (ds & Heq & Hall & Hne & Hval).
  rewrite Heq, app_nil_r. repeat split; try assumption.
  unfold digits_value. rewrite Hval. lia.
Qed.


(** *** Trailing zeros *)

Lemma strip_scale (s : nat) : forall c, (scale (strip c s) <= s)%nat.
Proof.
  induction s as [|s IH]; intros c; simpl; [lia|].
  destruct (c mod 10 =? 0); simpl; [|lia]. specialize (IH (c / 10)). lia.
Qed.

(** Stripping keeps the value. *)
Lemma strip_value (s : nat) : forall c,
  unscaled (strip c s) * pow10 (s - scale (strip c s)) = c.
Proof.
  unfold pow10. induction s as [|s IH]; intros c; simpl.
  - lia.
  - destruct (Z.eqb_spec (c mod 10) 0) as [Hz|Hz]; simpl.
    + pose proof (strip_scale s (c / 10)) as Hle.
      replace (Z.of_nat (S s - scale (strip (c / 10) s)))
        with (Z.succ (Z.of_nat (s - scale (strip (c / 10) s)))) by lia.
      rewrite Z.pow_succ_r by lia.
      specialize (IH (c / 10)).
      pose proof (Z.div_mod c 10). lia.
    + rewrite Nat.sub_diag. simpl. lia.
Qed.

Lemma strip_idempotent (s : nat) : forall c,
  normalize (strip c s) = strip c s.
Proof.
  unfold normalize. induction s as [|s IH]; intros c; simpl.
  - reflexivity.
  - destruct (Z.eqb_spec (c mod 10) 0) as [Hz|Hz]; simpl.
    + apply IH.
    + destruct (Z.eqb_spec (c mod 10) 0); [contradiction|reflexivity].
Qed.

Lemma strip_negate (s : nat) : forall c,
  strip (- c) s = negate (strip c s).
Proof.
  induction s as [|s IH]; intros c; simpl.
  - reflexivity.
  - destruct (Z.eqb_spec (c mod 10) 0) as [Hz|Hz].
    + rewrite Z.mod_opp_l_z, Z.div_opp_l_z by (lia || exact Hz). simpl.
      apply IH.
    + destruct (Z.eqb_spec (- c mod 10) 0) as [Hz'|Hz']; [|reflexivity].
      exfalso. apply Hz. apply Z.mod_divide in Hz'; [|lia].
      apply Z.mod_divide; [lia|]. apply Z.divide_opp_r in Hz'.
      now rewrite Z.opp_involutive in Hz'.
Qed.

Lemma negate_involutive (b : Big) : negate (negate b) = b.
Proof. destruct b. unfold negate. simpl. now rewrite Z.opp_involutive. Qed.

(** Normalising keeps the value: the two compare equal. *)
Lemma lift_strip (t s : nat) (c : Z) :
  (s <= t)%nat -> lift t (strip c s) = c * pow10 (t - s).
Proof.
  intros Hle. unfold lift.
  pose proof (strip_scale s c) as Hs. pose proof (strip_value s c) as Hv.
  revert Hs Hv. generalize (strip c s). intros b Hs Hv. subst c.
  unfold pow10. rewrite <- Z.mul_assoc, <- Z.pow_add_r by lia.
  do 2 f_equal. lia.
Qed.

Lemma eqb_normalize (b : Big) : eqb (normalize b) b = true.
Proof.
  unfold eqb, cmp, common, normalize.
  pose proof (strip_scale (scale b) (unscaled b)) as Hs.
  rewrite Nat.max_r by exact Hs.
  rewrite lift_strip by lia. unfold lift.
  now rewrite Z.compare_refl.
Qed.


(** *** Reading back what was printed *)

Lemma span_digits_app (ds rest : list ascii) :
  Forall (fun c => is_digit c = true) ds -> stops rest ->
  span_digits (ds ++ rest) = (ds, rest).
Proof.
  intros Hall Hstop. induction Hall as [|c ds Hc Hall IH]; cbn [app span_digits].
  - destruct rest as [|c r]; [reflexivity|].
    cbn [stops span_digits] in *. now rewrite Hstop.
  - rewrite Hc, IH. reflexivity.
Qed.

Lemma span_digits_all (ds : list ascii) :
  Forall (fun c => is_digit c = true) ds -> span_digits ds = (ds, []).
Proof.
  intros Hall. rewrite <- (app_nil_r ds) at 1.
  now apply span_digits_app.
Qed.

Lemma zeros_digits (k : nat) :
  Forall (fun c => is_digit c = true) (replicate k "0"%char).
Proof. induction k; simpl; constructor; [reflexivity|assumption]. Qed.

Lemma digits_value_zeros (k : nat) (ds : list ascii) :
  digits_value (replicate k "0"%char ++ ds) = digits_value ds.
Proof.
  unfold digits_value. rewrite foldl_app.
  replace (foldl digit_step 0 (replicate k "0"%char)) with 0; [reflexivity|].
  induction k; simpl; [reflexivity|exact IHk].
Qed.

Lemma padded_spec (c : Z) (s : nat) :
  0 <= c ->
  Forall (fun c => is_digit c = true) (padded c s)
  /\ (s < length (padded c s))%nat
  /\ digits_value (padded c s) = c.
Proof.
  intros Hc. destruct (digits_spec c Hc) as (Hall & Hne & Hval).
  unfold padded. repeat split.
  - apply Forall_app. split; [apply zeros_digits|exact Hall].
  - rewrite length_app, length_replicate.
    destruct (digits c); [contradiction|simpl; lia].
  - now rewrite digits_value_zeros.
Qed.

Lemma render_abs_padded (c : Z) (s : nat) :
  render_abs c s =
  if (s =? 0)%nat then padded c s
  else take (length (padded c s) - s) (padded c s)
       ++ "."%char :: drop (length (padded c s) - s) (padded c s).
Proof. reflexivity. Qed.

Lemma parse_unsigned_render_abs (c : Z) (s : nat) :
  0 <= c -> parse_unsigned (render_abs c s) = Some (strip c s).
Proof.
  intros Hc. destruct (padded_spec c s Hc) as (Hall & Hlen & Hval).
  rewrite render_abs_padded. unfold parse_unsigned.
  destruct (Nat.eqb_spec s 0) as [->|Hs].
  - rewrite span_digits_all by exact Hall.
    destruct (padded c 0) as [|d ds] eqn:E; [simpl in Hlen; lia|].
    simpl. unfold of_parts. rewrite app_nil_r, Hval. reflexivity.
  - set (ds := padded c s) in *. set (k := (length ds - s)%nat).
    assert (Hk : (0 < k < length ds)%nat) by (unfold k; lia).
    rewrite span_digits_app;
      [|apply Forall_take; exact Hall|reflexivity].
    rewrite span_digits_all by (apply Forall_drop; exact Hall).
    assert (Hip : nonempty (take k ds) = true).
    { destruct ds as [|d ds']; [simpl in Hlen; lia|].
      destruct k; [lia|reflexivity]. }
    rewrite Hip. simpl. unfold of_parts.
    rewrite take_drop, Hval, length_drop. fold k.
    replace (Z.of_nat (length ds - k) - 0) with (Z.of_nat s) by (unfold k; lia).
    destruct (Z.ltb_spec (Z.of_nat s) 0); [lia|].
    now rewrite Nat2Z.id.
Qed.

(** The first character of a printed magnitude is a digit. *)
Lemma render_abs_head (c : Z) (s : nat) :
  0 <= c -> exists d r, render_abs c s = d :: r /\ is_digit d = true.
Proof.
  intros Hc. destruct (padded_spec c s Hc) as (Hall & Hlen & _).
  rewrite render_abs_padded.
  destruct (padded c s) as [|d ds] eqn:E; [simpl in Hlen; lia|].
  apply Forall_cons in Hall as [Hd _].
  destruct (Nat.eqb_spec s 0) as [->|Hs]; [eauto|].
  simpl in Hlen.
  replace (length (d :: ds) - s)%nat with (S (length ds - s)) by (simpl; lia).
  simpl. eauto.
Qed.

Lemma normalize_normal (b : Big) :
  strip (unscaled (normalize b)) (scale (normalize b)) = normalize b.
Proof. apply (strip_idempotent (scale b) (unscaled b)). Qed.

(** [Big(b.toFixed())] is [b] again. *)
Theorem parse_render (b : Big) : parse (render b) = Some (normalize b).
Proof.
  unfold render. pose proof (normalize_normal b) as Hn.
  destruct (normalize b) as [c s]. simpl in *.
  destruct (Z.ltb_spec c 0) as [Hneg|Hpos].
  - simpl. rewrite parse_unsigned_render_abs by lia.
    rewrite Z.abs_neq by lia. rewrite strip_negate, Hn. cbn.
    now rewrite negate_involutive.
  - rewrite Z.abs_eq by lia.
    destruct (render_abs_head c s Hpos) as (d & r & Hr & Hd).
    pose proof (parse_unsigned_render_abs c s Hpos) as Hp.
    rewrite Hr in *. unfold parse.
    destruct (Ascii.eqb_spec d "-") as [->|Hd'].
    + discriminate Hd.
    + rewrite <- Hn, <- Hp.
      destruct d as [[] [] [] [] [] [] [] []]; try reflexivity.
      contradiction Hd'. reflexivity.
Qed.

Corollary Big_of_string_toFixed (b : Big) :
  Big_of_string (toFixed b) = Some (normalize b).
Proof.
  unfold Big_of_string, toFixed.
  rewrite list_ascii_of_string_of_list_ascii. apply parse_render.
Qed.

End BigJsFacts.

(** ** Facts about the big.js arithmetic

    The value of a decimal [b] is read as its numerator [lift t b] over
    the denominator [10^t], for any [t] not below its scale. *)

Module ArithmeticFacts.
Import BigJs BigJsFacts.

Lemma pow10_pos (n : nat) : 0 < pow10 n.
Proof. unfold pow10. apply Z.pow_pos_nonneg; lia. Qed.

Lemma pow10_add (n m : nat) : pow10 (n + m) = pow10 n * pow10 m.
Proof. unfold pow10. rewrite Nat2Z.inj_add, Z.pow_add_r by lia. reflexivity. Qed.

Lemma lift_rescale (t s : nat) (b : Big) :
  (scale b <= s <= t)%nat -> lift t b = lift s b * pow10 (t - s).
Proof.
  intros H. unfold lift. rewrite <- Z.mul_assoc, <- pow10_add.
  do 2 f_equal. lia.
Qed.

Lemma scale_plus (a b : Big) : (scale (plus a b) <= common a b)%nat.
Proof. apply strip_scale. Qed.

Lemma scale_minus (a b : Big) : (scale (minus a b) <= common a b)%nat.
Proof. apply strip_scale. Qed.

Lemma scale_mod (a b m : Big) :
  mod_ a b = Some m -> (scale m <= common a b)%nat.
Proof.
  unfold mod_. destruct (unscaled b =? 0); [discriminate|].
  intros [= <-]. apply strip_scale.
Qed.

Lemma common_le (t : nat) (a b : Big) :
  (common a b <= t)%nat <-> (scale a <= t)%nat /\ (scale b <= t)%nat.
Proof. unfold common. lia. Qed.

Lemma lift_plus (t : nat) (a b : Big) :
  (common a b <= t)%nat -> lift t (plus a b) = lift t a + lift t b.
Proof.
  intros H. pose proof H as [Ha Hb]%common_le.
  unfold plus. rewrite lift_strip by exact H.
  rewrite (lift_rescale t (common a b) a), (lift_rescale t (common a b) b)
    by (unfold common in *; lia).
  lia.
Qed.

Lemma lift_minus (t : nat) (a b : Big) :
  (common a b <= t)%nat -> lift t (minus a b) = lift t a - lift t b.
Proof.
  intros H. pose proof H as [Ha Hb]%common_le.
  unfold minus. rewrite lift_strip by exact H.
  rewrite (lift_rescale t (common a b) a), (lift_rescale t (common a b) b)
    by (unfold common in *; lia).
  lia.
Qed.

Lemma lift_zero_iff (t : nat) (b : Big) : lift t b = 0 <-> unscaled b = 0.
Proof. unfold lift. pose proof (pow10_pos (t - scale b)). nia. Qed.

(** [a.mod(b)] is the remainder of the truncated division. *)
Lemma lift_mod (t : nat) (a b m : Big) :
  mod_ a b = Some m -> (common a b <= t)%nat ->
  lift t m = Z.rem (lift t a) (lift t b).
Proof.
  intros Hm H. pose proof H as [Ha Hb]%common_le.
  unfold mod_ in Hm. destruct (Z.eqb_spec (unscaled b) 0) as [|Hnz];
    [discriminate|]. injection Hm as <-.
  rewrite lift_strip by exact H.
  rewrite (lift_rescale t (common a b) a), (lift_rescale t (common a b) b)
    by (unfold common in *; lia).
  pose proof (pow10_pos (t - common a b)).
  rewrite Z.mul_rem_distr_r; [reflexivity| |lia].
  now rewrite lift_zero_iff.
Qed.

Lemma mod_defined (a b : Big) :
  unscaled b <> 0 -> exists m, mod_ a b = Some m.
Proof.
  intros H. unfold mod_. destruct (Z.eqb_spec (unscaled b) 0); [contradiction|].
  eauto.
Qed.

Lemma cmp_zero (t : nat) (m : Big) : (cmp m zero =? 0) = (lift t m =? 0).
Proof.
  unfold cmp, common, lift. simpl. rewrite Nat.max_0_r, Nat.sub_diag.
  change (pow10 0) with 1. rewrite Z.mul_1_r.
  pose proof (pow10_pos (t - scale m)).
  rewrite Z.mul_0_l.
  destruct (Z.compare_spec (unscaled m) 0);
    destruct (Z.eqb_spec (unscaled m * pow10 (t - scale m)) 0);
    try reflexivity; nia.
Qed.

(** Truncated and floored remainders on a positive divisor. *)
Lemma rem_nonneg (B K : Z) : 0 <= B -> 0 < K -> Z.rem B K = B mod K.
Proof. intros. apply Z.rem_mod_nonneg; lia. Qed.

Lemma rem_negative (B K : Z) :
  B < 0 -> 0 < K -> B mod K <> 0 -> Z.rem B K = B mod K - K.
Proof.
  intros HB HK Hoff.
  pose proof (Z.rem_bound_pos_neg B K HK ltac:(lia)) as Hr.
  pose proof (Z.quot_rem' B K) as Hq.
  assert (Hr0 : Z.rem B K <> 0).
  { intros Hz. apply Hoff. rewrite Hz in Hq.
    rewrite Hq, Z.add_0_r, Z.mul_comm. apply Z.mod_mul. lia. }
  symmetry. apply Z.sub_move_r. symmetry.
  apply (Z.mod_unique B K (Z.quot B K - 1)); lia.
Qed.

End ArithmeticFacts.

(** ** Facts about the number conversions *)

Module JsFacts.
Import BigJs BigJsFacts Js.

Lemma decimal_char_not_space (c : ascii) :
  decimal_char c = true -> is_space c = false.
Proof.
  destruct c as [[] [] [] [] [] [] [] []]; try reflexivity; discriminate.
Qed.

Lemma render_abs_chars (c : Z) (s : nat) :
  0 <= c -> Forall (fun ch => decimal_char ch = true) (render_abs c s).
Proof.
  intros Hc. destruct (padded_spec c s Hc) as (Hall & _ & _).
  assert (Hd : Forall (fun ch => decimal_char ch = true) (padded c s)).
  { eapply Forall_impl; [exact Hall|]. intros ch Hch. unfold decimal_char.
    simpl in Hch. now rewrite Hch. }
  unfold render_abs. destruct (s =? 0)%nat; [exact Hd|].
  apply Forall_app. split; [now apply Forall_take|].
  constructor; [reflexivity|now apply Forall_drop].
Qed.

Lemma render_chars (b : Big) :
  Forall (fun ch => decimal_char ch = true) (render b).
Proof.
  unfold render. destruct (unscaled (normalize b) <? 0).
  - constructor; [reflexivity|]. apply render_abs_chars. lia.
  - apply render_abs_chars. lia.
Qed.

Lemma ltrim_id (l : list ascii) :
  Forall (fun ch => is_space ch = false) l -> ltrim l = l.
Proof. intros H. destruct H as [|c l Hc _]; simpl; [|rewrite Hc]; reflexivity. Qed.

Lemma rstrip_id (l : list ascii) :
  Forall (fun ch => is_space ch = false) l -> rstrip is_space l = l.
Proof.
  intros H. induction H as [|c l Hc _ IH]; simpl; [reflexivity|].
  now rewrite Hc, IH.
Qed.

Lemma trim_render (b : Big) : trim (render b) = render b.
Proof.
  assert (H : Forall (fun ch => is_space ch = false) (render b)).
  { eapply Forall_impl; [apply render_chars|]. apply decimal_char_not_space. }
  unfold trim. now rewrite ltrim_id, rstrip_id.
Qed.

Lemma round_not_NaN (negative : bool) (n d : Z) :
  isNaN (round negative n d) = false.
Proof.
  unfold round. destruct (n <=? 0); [reflexivity|].
  destruct (scale2 n d _) as [a b].
  destruct (nearest a b =? 2 ^ 53); [simpl; destruct (971 <? _); reflexivity|].
  destruct (nearest a b); try reflexivity.
  destruct (971 <? _); reflexivity.
Qed.

Lemma round_negate (negative : bool) (n d : Z) :
  negate_number (round negative n d) = round (negb negative) n d.
Proof.
  unfold round. destruct (n <=? 0); [reflexivity|].
  destruct (scale2 n d _) as [a b].
  destruct (if nearest a b =? 2 ^ 53 then _ else _) as [m e].
  destruct m; try reflexivity. destruct (971 <? e); reflexivity.
Qed.

Lemma Number_value_not_NaN (b : Big) : isNaN (Number_value b) = false.
Proof. apply round_not_NaN. Qed.

Lemma Number_value_negate (b : Big) :
  unscaled b <> 0 -> negate_number (Number_value b) = Number_value (negate b).
Proof.
  intros Hb. unfold Number_value, negate. simpl.
  rewrite round_negate, Z.abs_opp. f_equal.
  destruct (Z.ltb_spec (unscaled b) 0), (Z.ltb_spec (- unscaled b) 0);
    try reflexivity; lia.
Qed.

(** A printed decimal is no hexadecimal, octal or binary literal and not
    the word "Infinity". *)
Lemma radix_of_decimal_char (c : ascii) :
  decimal_char c = true -> radix_of c = None.
Proof.
  destruct c as [[] [] [] [] [] [] [] []]; try reflexivity; discriminate.
Qed.

Lemma nondecimal_decimal (l : list ascii) :
  Forall (fun ch => decimal_char ch = true) l -> nondecimal l = None.
Proof.
  intros H. unfold nondecimal.
  destruct l as [|c [|p [|x r]]]; [reflexivity| | |];
    try (destruct c as [[] [] [] [] [] [] [] []]; reflexivity).
  apply Forall_cons in H as [_ H]. apply Forall_cons in H as [Hp _].
  rewrite (radix_of_decimal_char p Hp).
  destruct c as [[] [] [] [] [] [] [] []]; reflexivity.
Qed.

Lemma not_Infinity (d : ascii) (r : list ascii) :
  is_digit d = true ->
  String.eqb (string_of_list_ascii (d :: r)) "Infinity" = false.
Proof.
  intros Hd. destruct d as [[] [] [] [] [] [] [] []]; try discriminate Hd;
    reflexivity.
Qed.

(** [Number(b.toFixed())] is the Number value of [b]. *)
Theorem Number_of_string_toFixed (b : Big) :
  Number_of_string (toFixed b) = Number_value (normalize b).
Proof.
  unfold Number_of_string, toFixed. cbv zeta.
  rewrite list_ascii_of_string_of_list_ascii, trim_render.
  unfold numeric_literal.
  rewrite (nondecimal_decimal _ (render_chars b)).
  pose proof (parse_render b) as Hp. unfold parse in Hp.
  unfold render in *. pose proof (normalize_normal b) as Hn.
  destruct (normalize b) as [c s]. simpl in *.
  destruct (render_abs_head (Z.abs c) s (Z.abs_nonneg c)) as (d & r & Hr & Hd).
  destruct (Z.ltb_spec c 0) as [Hneg|Hpos].
  - cbn [nonempty signed_number].
    unfold unsigned_number. rewrite Hr, (not_Infinity d r Hd), <- Hr.
    destruct (parse_unsigned (render_abs (Z.abs c) s)) as [u|];
      [|discriminate]. simpl in Hp.
    assert (Hu : negate u = mkBig c s) by congruence.
    assert (Hc : unscaled u <> 0).
    { intros Hz. apply (f_equal unscaled) in Hu. simpl in Hu. lia. }
    rewrite (Number_value_negate u Hc). now rewrite Hu.
  - rewrite Hr in *. cbn [nonempty]. unfold signed_number, unsigned_number.
    rewrite (not_Infinity d r Hd).
    destruct d as [[] [] [] [] [] [] [] []]; try discriminate Hd;
      now rewrite Hp.
Qed.

Lemma Number_of_string_toFixed_not_NaN (b : Big) :
  isNaN (Number_of_string (toFixed b)) = false.
Proof. rewrite Number_of_string_toFixed. apply Number_value_not_NaN. Qed.

Lemma toFixed_not_empty (b : Big) : String.eqb (toFixed b) "" = false.
Proof.
  unfold toFixed, render.
  destruct (unscaled (normalize b) <? 0); [reflexivity|].
  destruct (render_abs_head (Z.abs (unscaled (normalize b)))
              (scale (normalize b)) (Z.abs_nonneg _)) as (d & r & -> & _).
  reflexivity.
Qed.


Lemma eqb_zero (b : Big) : unscaled b = 0 -> eqb b zero = true.
Proof.
  intros H. unfold eqb, cmp, common, lift. rewrite H. reflexivity.
Qed.



End JsFacts.

(** ** Facts about Number.js: [setValue] and the key handler *)

Module NumberFieldFacts.
Import BigJs Js NumberField.

Lemma after_nil (st : state) : after st (stringValueCache st) [] = st.
Proof. destruct st. unfold after. simpl. now rewrite app_nil_r. Qed.

Lemma setValue_null (f : field) (input : value) (st : state) :
  isNullEquivalentValue input = true ->
  setValue f input st = Some (tt, after st "" [VNull]).
Proof. intros H. unfold setValue. rewrite H. reflexivity. Qed.

Lemma setValue_text (f : field) (raw : string) (st : state) :
  isNullEquivalentValue (VStr raw) = false ->
  let s := replaceAll "," "." raw in
  setValue f (VStr raw) st =
  Some (tt,
        if String.eqb s "-" then after st "-" []
        else if isNaN (Number_of_string s) then after st "NaN" [VStr "NaN"]
        else after st s [if serializeToString f then VStr s
                         else VNum (Number_of_string s)]).
Proof.
  intros H s. unfold setValue. rewrite H.
  unfold mbind, M_bind, orThrow, mret, M_ret. fold s.
  destruct (String.eqb s "-"); [|destruct (isNaN (Number_of_string s))].
  - unfold setStringValueCache, after. now rewrite app_nil_r.
  - reflexivity.
  - reflexivity.
Qed.

(** C4 (as amended): [setValue] on [undefined], [null] or the empty text
    clears the cache and emits [null]; on any other text, with commas
    turned into periods, a lone minus sign is only cached, a text that
    [Number] does not read as a number emits "NaN", and any other text (a
    text of white space, which [Number] reads as 0, included) is cached
    and emitted as its number (or as the text itself when
    [serializeToString] is set); whatever is emitted is canonical, and
    the text "-" is never emitted. *)
Theorem setValue_cases (f : field) (input : value) (st : state) :
  (input = VUndefined \/ input = VNull \/ input = VStr "" ->
     setValue f input st = Some (tt, after st "" [VNull]))
  /\ (forall raw, input = VStr raw -> raw <> "" ->
      let s := replaceAll "," "." raw in
      (s = "-" -> setValue f input st = Some (tt, after st "-" []))
      /\ (s <> "-" -> isNaN (Number_of_string s) = true ->
          setValue f input st = Some (tt, after st "NaN" [VStr "NaN"]))
      /\ (s <> "-" -> isNaN (Number_of_string s) = false ->
          setValue f input st =
          Some (tt, after st s [if serializeToString f then VStr s
                                else VNum (Number_of_string s)])))
  /\ (forall st', setValue f input st = Some (tt, st') ->
      exists vs, onChangeCalls st' = onChangeCalls st ++ vs
                 /\ Forall (fun v => canonical v = true /\ v <> VStr "-") vs).
Proof.
  split; [|split].
  - intros [-> | [-> | ->]]; now apply setValue_null.
  - intros raw -> Hraw s. apply String.eqb_neq in Hraw.
    rewrite (setValue_text f raw st Hraw). fold s.
    repeat split.
    + intros ->. reflexivity.
    + intros Hs Hnan. apply String.eqb_neq in Hs. now rewrite Hs, Hnan.
    + intros Hs Hnum. apply String.eqb_neq in Hs. now rewrite Hs, Hnum.
  - intros st'. destruct (isNullEquivalentValue input) eqn:Hnull.
    + rewrite (setValue_null f input st Hnull). intros [= <-].
      exists [VNull]. split; [reflexivity|].
      repeat constructor. discriminate.
    + destruct input as [| |b|n|raw];
        try (unfold setValue; rewrite Hnull; discriminate).
      rewrite (setValue_text f raw st Hnull).
      set (s := replaceAll "," "." raw).
      destruct (String.eqb_spec s "-") as [Hs|Hs].
      * intros [= <-]. exists []. simpl. split; [reflexivity|constructor].
      * destruct (isNaN (Number_of_string s)) eqn:Hnan; intros [= <-].
        -- exists [VStr "NaN"]. split; [reflexivity|].
           repeat constructor. discriminate.
        -- eexists. split; [reflexivity|].
           repeat constructor; destruct (serializeToString f); simpl;
             try rewrite Hnan; try reflexivity; try congruence.
           apply orb_true_r.
Qed.

(** The in-progress fragment is not canonical. *)
Lemma minus_not_canonical : canonical (VStr "-") = false.
Proof. reflexivity. Qed.

(** C10: when the value is the sentinel "NaN", Backspace or Delete resets
    the cache to the empty text, emits [null] and prevents the default
    deletion. *)
Theorem onKeyDown_NaN_clears (p : props) (code : string) (st : state) :
  p_value p = VStr "NaN" ->
  code = "Backspace" \/ code = "Delete" ->
  onKeyDown p code st =
  Some (tt, {| stringValueCache := "";
               onChangeCalls := onChangeCalls st ++ [VNull];
               defaultPrevented := true |}).
Proof.
  intros Hv Hcode. unfold onKeyDown. rewrite Hv.
  assert (Hc : String.eqb code "Backspace" || String.eqb code "Delete" = true)
    by (destruct Hcode as [-> | ->]; reflexivity).
  rewrite Hc. simpl.
  unfold mbind, M_bind. rewrite setValue_null by reflexivity. reflexivity.
Qed.

(** Any other key leaves a "NaN" value alone, unless it is an arrow. *)
Lemma onKeyDown_other (p : props) (code : string) (st : state) :
  code <> "Backspace" -> code <> "Delete" ->
  code <> "ArrowUp" -> code <> "ArrowDown" ->
  onKeyDown p code st = Some (tt, st).
Proof.
  intros H1 H2 H3 H4. unfold onKeyDown.
  apply String.eqb_neq in H1, H2, H3, H4. rewrite H1, H2, H3, H4.
  rewrite andb_false_r. reflexivity.
Qed.

(** The arrow handlers compute with big.js and hand the text to
    [setValue]. *)
Lemma increment_steps (p : props) (b k m : Big) (st : state) :
  p_readonly p = false ->
  base p = Some b -> arrowIncrementValue (p_field p) = Some k ->
  mod_ b k = Some m ->
  increment p st
  = setValue (p_field p) (VStr (toFixed (plus (minus b m) k))) st.
Proof.
  intros Hro Hb Hk Hm. unfold increment. rewrite Hro, Hb, Hk.
  unfold mbind, M_bind, orThrow, mret, M_ret. now rewrite Hm.
Qed.

Lemma decrement_steps (p : props) (b k m : Big) (st : state) :
  p_readonly p = false ->
  base p = Some b -> arrowIncrementValue (p_field p) = Some k ->
  mod_ b k = Some m ->
  decrement p st
  = setValue (p_field p)
      (VStr (toFixed (if cmp m zero =? 0 then minus b k else minus b m))) st.
Proof.
  intros Hro Hb Hk Hm. unfold decrement. rewrite Hro, Hb, Hk.
  unfold mbind, M_bind, orThrow, mret, M_ret. rewrite Hm.
  destruct (cmp m zero =? 0); reflexivity.
Qed.

Lemma readonly_ignores_arrows (p : props) (st : state) :
  p_readonly p = true ->
  increment p st = Some (tt, st) /\ decrement p st = Some (tt, st).
Proof. intros H. unfold increment, decrement. rewrite H. auto. Qed.

End NumberFieldFacts.

(** ** Facts about Number.js: [displayValue] and [sanitizeValue] *)

Module DisplayFacts.
Import BigJs BigJsFacts Js JsFacts NumberField.

Lemma normalize_idempotent (b : Big) : normalize (normalize b) = normalize b.
Proof. apply (strip_idempotent (scale b) (unscaled b)). Qed.

(** Without [serializeToString], a sanitized value is [null] or a number
    other than [NaN]. *)
Lemma sanitizeValue_number (f : field) (v : value) :
  serializeToString f = false ->
  sanitizeValue f v = VNull
  \/ exists x, sanitizeValue f v = VNum x /\ isNaN x = false.
Proof.
  intros Hs. unfold sanitizeValue. rewrite Hs.
  destruct (isNullEquivalentValue v); [now left|].
  destruct (isValidNumber v) eqn:Hv; [|now left]. simpl. right.
  destruct v as [| |x|x|x]; simpl in Hv; try discriminate.
  - exists x. split; [reflexivity|now apply negb_true_iff].
  - simpl. apply andb_true_iff in Hv as [_ Hv].
    eexists. split; [reflexivity|now apply negb_true_iff].
Qed.


Lemma sanitizeValue_empty (f : field) : sanitizeValue f (VStr "") = VNull.
Proof. reflexivity. Qed.

Lemma sanitizeValue_finite (f : field) (x : jsnum) :
  serializeToString f = false -> isNaN x = false ->
  sanitizeValue f (VNum x) = VNum x.
Proof. intros Hs Hx. unfold sanitizeValue. simpl. now rewrite Hx, Hs. Qed.


End DisplayFacts.

(** ** Facts about Number.js: the arrow stepping *)

Module StepFacts.
Import BigJs BigJsFacts ArithmeticFacts Js JsFacts NumberField NumberFieldFacts.

Lemma toFixed_not_minus (b : Big) : String.eqb (toFixed b) "-" = false.
Proof.
  unfold toFixed, render.
  destruct (render_abs_head (Z.abs (unscaled (normalize b)))
              (scale (normalize b)) (Z.abs_nonneg _)) as (d & r & Hr & Hd).
  rewrite Hr. destruct (unscaled (normalize b) <? 0); [reflexivity|].
  destruct d as [[] [] [] [] [] [] [] []]; try discriminate Hd; reflexivity.
Qed.

Lemma replaceAll_decimal (l : list ascii) :
  Forall (fun ch => decimal_char ch = true) l ->
  replaceAll "," "." (string_of_list_ascii l) = string_of_list_ascii l.
Proof.
  intros H. induction H as [|c l Hc _ IH]; simpl; [reflexivity|].
  rewrite IH. f_equal.
  destruct c as [[] [] [] [] [] [] [] []]; try discriminate Hc; reflexivity.
Qed.

(** [setValue] on a text printed by big.js caches the text and emits its
    number (or the text itself). *)
Lemma setValue_toFixed (f : field) (b : Big) (st : state) :
  setValue f (VStr (toFixed b)) st =
  Some (tt, after st (toFixed b)
              [if serializeToString f then VStr (toFixed b)
               else VNum (Number_of_string (toFixed b))]).
Proof.
  rewrite setValue_text by (simpl; apply toFixed_not_empty).
  assert (Hr : replaceAll "," "." (toFixed b) = toFixed b)
    by (apply replaceAll_decimal, render_chars).
  now rewrite Hr, toFixed_not_minus, Number_of_string_toFixed_not_NaN.
Qed.

Section Stepping.
(** The current value [b], the step [k], the remainder [m] that big.js
    computes, and a denominator [10^t] on which all of them are whole. *)
Variables (p : props) (b k m : Big) (t : nat).
Hypothesis writable : p_readonly p = false.
Hypothesis current : base p = Some b.
Hypothesis magnitude : arrowIncrementValue (p_field p) = Some k.
Hypothesis remainder : mod_ b k = Some m.
Hypothesis scale_b : (scale b <= t)%nat.
Hypothesis scale_k : (scale k <= t)%nat.

Let B := lift t b.
Let K := lift t k.

Lemma scale_m : (scale m <= t)%nat.
Proof. pose proof (scale_mod b k m remainder). unfold common in *. lia. Qed.

Lemma lift_remainder : lift t m = Z.rem B K.
Proof. apply lift_mod; [exact remainder|]. unfold common. lia. Qed.

Lemma lift_floored : lift t (minus b m) = B - Z.rem B K.
Proof.
  pose proof scale_m. rewrite lift_minus by (unfold common; lia).
  now rewrite lift_remainder.
Qed.

(** What [increment] does: the text of [(b - b mod k) + k] goes through
    [setValue]; its numerator is [B - rem B K + K]. *)
Lemma increment_emits (st : state) :
  let r := plus (minus b m) k in
  increment p st =
  Some (tt, after st (toFixed r)
              [if serializeToString (p_field p) then VStr (toFixed r)
               else VNum (Number_of_string (toFixed r))])
  /\ lift t r = B - Z.rem B K + K.
Proof.
  intros r. split.
  - rewrite (increment_steps p b k m st writable current magnitude remainder).
    apply setValue_toFixed.
  - unfold r. pose proof scale_m. pose proof (scale_minus b m).
    rewrite lift_plus by (unfold common in *; lia).
    now rewrite lift_floored.
Qed.

(** What [decrement] does: [b - k] on a step boundary, [b - b mod k]
    off it. *)
Lemma decrement_emits (st : state) :
  let r := if Z.rem B K =? 0 then minus b k else minus b m in
  decrement p st =
  Some (tt, after st (toFixed r)
              [if serializeToString (p_field p) then VStr (toFixed r)
               else VNum (Number_of_string (toFixed r))])
  /\ lift t r = if Z.rem B K =? 0 then B - K else B - Z.rem B K.
Proof.
  intros r. split.
  - rewrite (decrement_steps p b k m st writable current magnitude remainder).
    rewrite (cmp_zero t m), lift_remainder. apply setValue_toFixed.
  - unfold r. destruct (Z.rem B K =? 0).
    + apply lift_minus. unfold common. lia.
    + apply lift_floored.
Qed.

(** The lower step boundary of [B]: the greatest multiple of [K] that is
    not above [B]. *)
Lemma boundary_is_floor :
  0 < K -> K * (B / K) <= B < K * (B / K) + K.
Proof.
  intros HK. pose proof (Z.div_mod B K ltac:(lia)).
  pose proof (Z.mod_pos_bound B K HK). lia.
Qed.

(** For a current value that is not negative, an increment lands one step
    above the lower boundary, and a decrement lands on the boundary, or
    one step below the value when the value is on a boundary. *)
Theorem arrows_from_nonnegative (st : state) :
  0 <= B -> 0 < K ->
  let floor := K * (B / K) in
  (exists r, increment p st =
     Some (tt, after st (toFixed r)
                 [if serializeToString (p_field p) then VStr (toFixed r)
                  else VNum (Number_of_string (toFixed r))])
     /\ lift t r = floor + K)
  /\ (exists r, decrement p st =
     Some (tt, after st (toFixed r)
                 [if serializeToString (p_field p) then VStr (toFixed r)
                  else VNum (Number_of_string (toFixed r))])
     /\ lift t r = if B mod K =? 0 then B - K else floor).
Proof.
  intros HB HK floor.
  pose proof (Z.div_mod B K ltac:(lia)) as Hdm.
  pose proof (rem_nonneg B K HB HK) as Hrem.
  split.
  - destruct (increment_emits st) as [Hi Hv]. eexists. split; [exact Hi|].
    rewrite Hv, Hrem. unfold floor. lia.
  - destruct (decrement_emits st) as [Hd Hv]. eexists. split; [exact Hd|].
    rewrite Hv, Hrem. destruct (B mod K =? 0); [reflexivity|].
    unfold floor. lia.
Qed.

(** For a negative current value off the step boundaries, big.js's
    remainder is negative: an increment lands two steps above the lower
    boundary, and a decrement lands on the boundary above the value. *)
Theorem arrows_from_negative_off_step (st : state) :
  B < 0 -> 0 < K -> B mod K <> 0 ->
  let floor := K * (B / K) in
  (exists r, increment p st =
     Some (tt, after st (toFixed r)
                 [if serializeToString (p_field p) then VStr (toFixed r)
                  else VNum (Number_of_string (toFixed r))])
     /\ lift t r = floor + 2 * K)
  /\ (exists r, decrement p st =
     Some (tt, after st (toFixed r)
                 [if serializeToString (p_field p) then VStr (toFixed r)
                  else VNum (Number_of_string (toFixed r))])
     /\ lift t r = floor + K /\ B < lift t r).
Proof.
  intros HB HK Hoff floor.
  pose proof (Z.div_mod B K ltac:(lia)) as Hdm.
  pose proof (Z.mod_pos_bound B K HK) as Hbound.
  pose proof (rem_negative B K HB HK Hoff) as Hrem.
  split.
  - destruct (increment_emits st) as [Hi Hv]. eexists. split; [exact Hi|].
    rewrite Hv, Hrem. unfold floor. lia.
  - destruct (decrement_emits st) as [Hd Hv]. eexists. split; [exact Hd|].
    rewrite Hv, Hrem.
    destruct (Z.eqb_spec (B mod K - K) 0); [lia|].
    unfold floor. lia.
Qed.

End Stepping.

(** The step magnitude: the configured increment when it is truthy,
    otherwise [10^-decimalDigits] for a positive [decimalDigits], otherwise
    1. *)
Lemma arrowIncrementValue_increment (f : field) :
  truthy (incrementValue f) = true ->
  arrowIncrementValue f = Big_of_value (incrementValue f).
Proof. intros H. unfold arrowIncrementValue. now rewrite H. Qed.

Lemma arrowIncrementValue_default (f : field) :
  truthy (incrementValue f) = false ->
  decimalDigits f = None \/ decimalDigits f = Some 0 ->
  arrowIncrementValue f = Some one.
Proof.
  intros H Hd. unfold arrowIncrementValue. rewrite H.
  destruct Hd as [-> | ->]; reflexivity.
Qed.

(** X17: with no increment configured and a positive [decimalDigits] of
    [d], the step is [10^-d]: big.js reads the text "1e-d" as the decimal
    with numerator 1 and [d] places. *)
Lemma arrowIncrementValue_decimalDigits (f : field) (d : Z) :
  truthy (incrementValue f) = false ->
  decimalDigits f = Some d -> 0 < d ->
  arrowIncrementValue f = Some (mkBig 1 (Z.to_nat d)).
Proof.
  intros H Hd Hpos. unfold arrowIncrementValue. rewrite H, Hd.
  destruct (Z.eqb_spec d 0); [lia|].
  unfold int_text. destruct (Z.ltb_spec d 0); [lia|].
  destruct (digits_spec d ltac:(lia)) as (Hall & Hne & Hval).
  unfold Big_of_string.
  change (list_ascii_of_string ("1e-" +:+ string_of_list_ascii (digits d)))
    with ("1"%char :: "e"%char :: "-"%char
          :: list_ascii_of_string (string_of_list_ascii (digits d))).
  rewrite list_ascii_of_string_of_list_ascii.
  unfold parse, parse_unsigned. cbn [span_digits is_digit digit_of].
  change (is_digit "1") with true. change (is_digit "e") with false.
  cbn iota. cbn [nonempty parse_exponent]. change (is_e "e") with true.
  cbn iota. rewrite span_digits_all by exact Hall.
  destruct (digits d) as [|c r] eqn:E; [contradiction|].
  cbn [nonempty andb negb]. unfold of_parts. rewrite Hval.
  change (digits_value ["1"%char]) with 1. simpl length.
  destruct (Z.ltb_spec (Z.of_nat 0 - - d) 0); [lia|].
  replace (Z.to_nat (Z.of_nat 0 - - d)) with (Z.to_nat d) by lia.
  destruct (Z.to_nat d) eqn:En; [lia|]. reflexivity.
Qed.

End StepFacts.

(** ** Examples for RepeatRenderManager.js *)

Module RepeatExamples.
Import JsArray Repeat Samples RepeatFacts.

(** The spec's example (cap 5, eight items, collapsed: the first five),
    and a negative cap. *)
Lemma Repeater_visible_slice_witness :
  row_value <$> Repeater samplePath sampleGet (repeatProps (Some 5))
                  (repeatWorld [1; 2; 3; 4; 5; 6; 7; 8]%nat true)
  = [1; 2; 3; 4; 5]%nat
  /\ row_value <$> Repeater samplePath sampleGet (repeatProps (Some (-2)))
                     (repeatWorld [1; 2; 3]%nat true)
     = [1]%nat.
Proof.
  split.
  - destruct (Repeater_visible_slice samplePath sampleGet (repeatProps (Some 5))
                (repeatWorld [1; 2; 3; 4; 5; 6; 7; 8]%nat true))
      as (_ & H & _).
    destruct (H eq_refl eq_refl) as [H1 _].
    destruct (H1 eq_refl) as [H2 _].
    destruct H2 as [H2 _]; [discriminate|]. rewrite H2. reflexivity.
  - destruct (Repeater_visible_slice samplePath sampleGet
                (repeatProps (Some (-2))) (repeatWorld [1; 2; 3]%nat true))
      as (_ & H & _).
    destruct (H eq_refl eq_refl) as [H1 _].
    destruct (H1 eq_refl) as [_ H2].
    destruct H2 as [H2 _]; [reflexivity|]. rewrite H2. reflexivity.
Defined.

(** C1 as stated fails for a negative cap.  With the cap -1 and three
    items, collapsing is not disabled, [L > N] and the shared flag is
    collapsed; the rows show two items: not the first [N] items, and not
    [min L N] of them. *)
Lemma collapsed_view_of_negative_cap :
  let p := repeatProps (Some (-1)) in
  let w := repeatWorld [1; 2; 3]%nat true in
  let N := _getNonCollapsedItems (p_field p) in
  let L := Z.of_nat (length (values samplePath sampleGet p w)) in
  let visible := row_value <$> Repeater samplePath sampleGet p w in
  disableCollapse (p_field p) = false
  /\ N < L
  /\ isCollapsed (sharedRepeatState w) = true
  /\ visible = [1; 2]%nat
  /\ visible <> take (Z.to_nat N) (values samplePath sampleGet p w)
  /\ Z.of_nat (length visible) <> Z.min L N.
Proof. evaluate. Qed.

(** A negative [nonCollapsedItems] is neither replaced by 5 nor clamped:
    it is the cap, and the collapsed view of three items shows two. *)
Lemma negative_cap_used_as_is :
  ~ 0 < -1
  /\ _getNonCollapsedItems (repeatField (Some (-1))) = -1
  /\ _getNonCollapsedItems (repeatField (Some (-1))) <> 5
  /\ displayValues samplePath sampleGet (repeatProps (Some (-1)))
       (repeatWorld [1; 2; 3]%nat true) = [1; 2]%nat.
Proof. evaluate. Qed.

Lemma getNonCollapsedItems_truthy_witness :
  _getNonCollapsedItems (repeatField (Some 3)) = 3
  /\ _getNonCollapsedItems (repeatField (Some 0)) = 5.
Proof.
  split.
  - apply (getNonCollapsedItems_truthy (repeatField (Some 3)));
      [reflexivity|discriminate].
  - apply (getNonCollapsedItems_truthy (repeatField (Some 0))).
    right. reflexivity.
Defined.

Lemma onDeleteItem_in_range_witness :
  let p := repeatProps None in
  let w := repeatWorld [1; 2; 3]%nat false in
  0 <= 1 < Z.of_nat (length (values samplePath sampleGet p w))
  /\ exists updated,
       emitted {| cr_field := p_field p; cr_value := updated;
                  cr_indexes := p_indexes p |}
               w (onDeleteItem samplePath sampleGet p w 1 w)
       /\ updated = [1; 3]%nat.
Proof.
  intros p w. split; [evaluate|].
  destruct (onDeleteItem_in_range samplePath sampleGet p w 1)
    as (updated & Hem & Hup & _); [evaluate|].
  exists updated. split; [exact Hem|exact Hup].
Defined.


(** Within the rows, the request is the removal: at index 1 of three
    items it emits the other two. *)
Example removeItem_sample :
  let p := repeatProps None in
  let w := repeatWorld [1; 2; 3]%nat false in
  onChangeCalls (removeItem samplePath sampleGet p w 1 w)
  = [ {| cr_field := p_field p; cr_value := [1; 3]%nat;
         cr_indexes := p_indexes p |} ].
Proof. reflexivity. Qed.

Example onAddItem_sample :
  let p := repeatProps None in
  let w := repeatWorld [1; 2; 3]%nat true in
  onAddItem samplePath sampleGet sampleInit p w w
  = {| formData := Some [1; 2; 3]%nat;
       sharedRepeatState := {| isCollapsed := false |};
       onChangeCalls := [ {| cr_field := p_field p;
                             cr_value := [1; 2; 3; 103]%nat;
                             cr_indexes := p_indexes p |} ];
       shouldScroll := true |}.
Proof. reflexivity. Qed.

Lemma toggle_inverts_witness :
  let p := repeatProps (Some 2) in
  let w := repeatWorld [1; 2; 3]%nat true in
  exists handler,
    collapseButton (RepeatFooter samplePath sampleGet sampleInit p w) = Some handler
    /\ isCollapsed (sharedRepeatState (handler w)) = false.
Proof.
  intros p w. exists (toggle samplePath sampleGet p w).
  split; [reflexivity|].
  apply (toggle_inverts samplePath sampleGet sampleInit p w
           (toggle samplePath sampleGet p w)).
  reflexivity.
Defined.

End RepeatExamples.

(** ** Examples for Number.js *)

Module NumberExamples.
Import BigJs Js NumberField Samples NumberFieldFacts DisplayFacts.

(** The spec's examples: a lone minus sign is only cached; "-5" typed
    after it emits the number -5. *)
Example setValue_minus :
  setValue plainField (VStr "-") (initial "") = Some (tt, initial "-").
Proof. reflexivity. Qed.

Lemma setValue_cases_witness :
  setValue plainField (VStr "-5") (initial "-")
  = Some (tt, after (initial "-") "-5" [VNum (Number_value (mkBig (-5) 0))]).
Proof.
  destruct (setValue_cases plainField (VStr "-5") (initial "-"))
    as (_ & H & _).
  destruct (H "-5" eq_refl ltac:(discriminate)) as (_ & _ & H3).
  apply H3; [discriminate|evaluate].
Defined.

(** C4 as stated fails on a text of white space: the cache is not cleared
    and the number 0 is emitted, not [null]. *)
Lemma setValue_white_space :
  setValue plainField (VStr " ") (initial "")
  = Some (tt, after (initial "") " " [VNum (Zero false)])
  /\ stringValueCache (after (initial "") " " [VNum (Zero false)]) <> ""
  /\ onChangeCalls (after (initial "") " " [VNum (Zero false)]) <> [VNull].
Proof. evaluate. Qed.

(** Commas count as periods; text that is no number emits the sentinel. *)
Example setValue_comma :
  setValue plainField (VStr "1,5") (initial "")
  = Some (tt, after (initial "") "1.5" [VNum (Number_value (mkBig 15 1))]).
Proof. evaluate. Qed.

Example setValue_not_a_number :
  setValue plainField (VStr "abc") (initial "")
  = Some (tt, after (initial "") "NaN" [VStr "NaN"]).
Proof. reflexivity. Qed.

Lemma onKeyDown_NaN_clears_witness :
  onKeyDown (numberProps plainField (VStr "NaN")) "Backspace" (initial "NaN")
  = Some (tt, {| stringValueCache := "";
                 onChangeCalls := [VNull];
                 defaultPrevented := true |}).
Proof.
  apply (onKeyDown_NaN_clears (numberProps plainField (VStr "NaN"))
           "Backspace" (initial "NaN")).
  - reflexivity.
  - left. reflexivity.
Defined.

(** The spec's stepping example: two decimal digits, value 1.00, one
    increment hands "1.01" to [setValue]. *)
Example increment_cents :
  increment (numberProps (centsField true) (VStr "1.00")) (initial "1.00")
  = Some (tt, after (initial "1.00") "1.01" [VStr "1.01"])
  /\ increment (numberProps (centsField false) (VStr "1.00")) (initial "1.00")
     = Some (tt, after (initial "1.00") "1.01"
                   [VNum (Number_value (mkBig 101 2))]).
Proof. evaluate. Qed.

(** From the off-step value 1.5 with step 1: up to 2, down to 1. *)
Example arrows_positive_off_step :
  let p := numberProps plainField (VNum (Number_value (mkBig 15 1))) in
  increment p (initial "1.5")
  = Some (tt, after (initial "1.5") "2" [VNum (Number_value (mkBig 2 0))])
  /\ decrement p (initial "1.5")
     = Some (tt, after (initial "1.5") "1" [VNum (Number_value (mkBig 1 0))]).
Proof. evaluate. Qed.

(** C2: the code at a negative off-step value.  From -1.5 with step 1
    the lower step boundary is -2, so an increment should emit -1 and a
    decrement -2; the handlers emit 0 and -1. *)
Theorem arrows_negative_off_step :
  let p := numberProps plainField minusOneAndHalf in
  increment p (initial "-1.5")
  = Some (tt, after (initial "-1.5") "0" [VNum (Number_value (mkBig 0 0))])
  /\ decrement p (initial "-1.5")
     = Some (tt, after (initial "-1.5") "-1"
                   [VNum (Number_value (mkBig (-1) 0))]).
Proof. evaluate. Qed.


End NumberExamples.

(** ** More facts about RepeatRenderManager.js: rows, buttons, sequences
    of actions *)

Module RepeatMoreFacts.
Import JsArray JsArrayFacts Repeat RepeatFacts.

(** Whatever its arguments, [slice] from 0 keeps a prefix, and a [splice]
    of one element keeps a subsequence that is at most one shorter. *)
Lemma slice_from_0_prefix {A} (n : Z) (l : list A) :
  slice (Some 0) (Some n) l `prefix_of` l.
Proof.
  destruct (Z.lt_ge_cases n 0).
  - rewrite slice_negative_end by assumption. apply prefix_take.
  - rewrite slice_prefix by assumption. apply prefix_take.
Qed.

Lemma splice_one_sublist {A} (i : Z) (l : list A) :
  splice i 1 l `sublist_of` l
  /\ (length l <= S (length (splice i 1 l)))%nat.
Proof.
  unfold splice.
  set (a := relIndex (Z.of_nat (length l)) i).
  assert (Ha : 0 <= a <= Z.of_nat (length l)).
  { unfold a, relIndex. destruct (Z.ltb_spec i 0); lia. }
  set (d := Z.min (Z.max 1 0) (Z.of_nat (length l) - a)).
  assert (Hd : 0 <= d <= 1) by (unfold d; lia).
  split.
  - rewrite <- (take_drop (Z.to_nat a) l) at 3.
    apply sublist_app; [reflexivity|].
    replace (Z.to_nat (a + d)) with (Z.to_nat a + Z.to_nat d)%nat by lia.
    rewrite <- drop_drop. apply sublist_drop.
  - rewrite length_app, length_take, length_drop. lia.
Qed.

Section Manager.
Context {item data path : Type}.
Variable getValuePath : field -> gmap string Z -> path.
Variable get : data -> path -> option (list item).
Variable getInitializedFieldData : data -> field -> gmap string Z -> item.

#[local] Abbreviation values := (values getValuePath get).
#[local] Abbreviation collapseEnabled := (collapseEnabled getValuePath get).
#[local] Abbreviation displayValues := (displayValues getValuePath get).
#[local] Abbreviation Repeater := (Repeater getValuePath get).
#[local] Abbreviation onDeleteItem := (onDeleteItem getValuePath get).
#[local] Abbreviation onAddItem := (onAddItem getValuePath get getInitializedFieldData).
#[local] Abbreviation RepeatFooter := (RepeatFooter getValuePath get getInitializedFieldData).

Lemma displayValues_prefix (p : props) (w : world) :
  displayValues p w `prefix_of` values p w.
Proof.
  unfold Repeat.displayValues.
  destruct (isCollapsedNow getValuePath get p w); [|reflexivity].
  apply slice_from_0_prefix.
Qed.

Lemma displayValues_lookup (p : props) (w : world) (i : nat) (x : item) :
  displayValues p w !! i = Some x -> values p w !! i = Some x.
Proof.
  intros H. destruct (displayValues_prefix p w) as [k Hk].
  rewrite Hk. now apply lookup_app_l_Some.
Qed.

(** X1: whatever the cap (negative ones included) and the shared flag, the
    rows show a prefix of the backing array: no item is reordered,
    repeated or invented, and there are never more rows than items. *)
Theorem Repeater_shows_prefix (p : props) (w : world) :
  (row_value <$> Repeater p w) `prefix_of` values p w
  /\ (length (Repeater p w) <= length (values p w))%nat.
Proof.
  pose proof (displayValues_prefix p w) as H.
  rewrite Repeater_values. split; [exact H|].
  unfold Repeat.Repeater. rewrite length_imap. now apply prefix_length.
Qed.

(** X2: the row at display position [i] holds the item at position [i] of
    the backing array, and its [indexes] are those of the parent with the
    repeater's own id bound to [i]: the bindings of all other ids are
    kept. *)
Theorem Repeater_row (p : props) (w : world) (i : nat) (r : row) :
  Repeater p w !! i = Some r ->
  values p w !! i = Some (row_value r)
  /\ row_index r = Z.of_nat i
  /\ row_indexes r !! id (p_field p) = Some (Z.of_nat i)
  /\ forall k, k <> id (p_field p) -> row_indexes r !! k = p_indexes p !! k.
Proof.
  intros H. destruct (Repeater_indexes getValuePath get p w i r H)
    as (Hi & Hv & Hx).
  split; [now apply displayValues_lookup|]. split; [exact Hi|].
  rewrite Hx. split.
  - apply lookup_insert_eq.
  - intros k Hk. now apply lookup_insert_ne.
Qed.

(** X3: the remove button of a row removes that row's item: it calls
    [onChange] once with the backing array without the element at the
    row's position, which is the item the row shows. *)
Theorem row_remove_removes_row (p : props) (w : world) (i : nat) (r : row)
    (handler : world -> world) :
  Repeater p w !! i = Some r ->
  row_remove r = Some handler ->
  let vs := values p w in
  vs !! i = Some (row_value r)
  /\ emitted {| cr_field := p_field p;
                cr_value := take i vs ++ drop (S i) vs;
                cr_indexes := p_indexes p |}
             w (handler w)
  /\ S (length (take i vs ++ drop (S i) vs)) = length vs.
Proof.
  intros Hr Hh vs.
  assert (Hv : vs !! i = Some (row_value r)).
  { destruct (Repeater_indexes getValuePath get p w i r Hr) as (_ & Hv & _).
    now apply displayValues_lookup. }
  assert (Hlt : (i < length vs)%nat) by (eapply lookup_lt_Some; exact Hv).
  split; [exact Hv|].
  unfold Repeat.Repeater in Hr. rewrite list_lookup_imap in Hr.
  destruct (displayValues p w !! i) as [x|]; [|discriminate].
  injection Hr as <-. simpl in Hh.
  destruct (showAddRemove p); [|discriminate]. injection Hh as <-.
  split.
  - pose proof (onDeleteItem_emits getValuePath get p w w (Z.of_nat i)) as He.
    rewrite splice_in_range in He by (fold vs; lia).
    now rewrite Nat2Z.id in He.
  - rewrite length_app, length_take, length_drop. lia.
Qed.

(** X4: the add button and the remove buttons of the rows are rendered
    under the same condition, [allowAddRemove] with at least one
    component, but only the add button is guarded: it is disabled, and a
    click on it changes nothing, when the footer is disabled or readonly,
    whereas a rendered remove button has no such attribute and a click on
    it always emits the array without its row's item. *)
Theorem add_guarded_remove_not (p : props) (w : world) :
  (is_Some (addButton (RepeatFooter p w)) <->
   allowAddRemove (p_field p) = true
   /\ exists c cs, components (p_field p) = Some (c :: cs))
  /\ (forall b, addButton (RepeatFooter p w) = Some b ->
      disabled b = p_disabled p || p_readonly p
      /\ onClick b = onAddItem p w
      /\ (p_disabled p = true \/ p_readonly p = true ->
          forall w', click b w' = w'))
  /\ (forall i r, Repeater p w !! i = Some r ->
      is_Some (addButton (RepeatFooter p w)) ->
      exists handler,
        row_remove r = Some handler
        /\ forall w',
             emitted {| cr_field := p_field p;
                        cr_value := take i (values p w) ++ drop (S i) (values p w);
                        cr_indexes := p_indexes p |}
                     w' (handler w')).
Proof.
  assert (Hshow : showAddRemove p = true <->
                  allowAddRemove (p_field p) = true
                  /\ exists c cs, components (p_field p) = Some (c :: cs)).
  { unfold showAddRemove, hasChildren. rewrite andb_true_iff.
    destruct (components (p_field p)) as [[|c cs]|]; simpl.
    - split; [intros [_ ?]; discriminate|intros [_ (? & ? & ?)]; discriminate].
    - split; [intros [? _]; eauto|intros [? _]; auto].
    - split; [intros [_ ?]; discriminate|intros [_ (? & ? & ?)]; discriminate]. }
  split; [|split].
  - rewrite <- Hshow. unfold Repeat.RepeatFooter. simpl.
    destruct (showAddRemove p); split; intros H; try reflexivity; eauto;
      try discriminate. now destruct H.
  - intros b. unfold Repeat.RepeatFooter. simpl.
    destruct (showAddRemove p); [|discriminate]. intros [= <-]. simpl.
    split; [reflexivity|]. split; [reflexivity|].
    intros Hoff w'. unfold click. simpl.
    destruct Hoff as [-> | ->]; [reflexivity|now rewrite orb_true_r].
  - intros i r Hr Hadd.
    assert (Hlt : (i < length (values p w))%nat).
    { destruct (Repeater_indexes getValuePath get p w i r Hr) as (_ & Hv & _).
      apply displayValues_lookup in Hv. eapply lookup_lt_Some. exact Hv. }
    unfold Repeat.Repeater in Hr. rewrite list_lookup_imap in Hr.
    destruct (displayValues p w !! i) as [x|]; [|discriminate].
    injection Hr as <-. unfold Repeat.RepeatFooter in Hadd. simpl in *.
    destruct (showAddRemove p); [|now destruct Hadd].
    eexists. split; [reflexivity|]. intros w'.
    pose proof (onDeleteItem_emits getValuePath get p w w' (Z.of_nat i)) as He.
    rewrite splice_in_range in He by lia.
    now rewrite Nat2Z.id in He.
Qed.

(** X5: for every index whatsoever the remove handler calls [onChange]
    exactly once, with a subsequence of the backing array that is at most
    one item shorter: it never removes more than one item and never adds
    or reorders any. *)
Theorem onDeleteItem_any_index (p : props) (w : world) (index : Z) :
  exists updated,
    emitted {| cr_field := p_field p; cr_value := updated;
               cr_indexes := p_indexes p |}
            w (onDeleteItem p w index w)
    /\ updated `sublist_of` values p w
    /\ (length (values p w) <= S (length updated))%nat.
Proof.
  exists (splice index 1 (values p w)). split.
  - apply onDeleteItem_emits.
  - apply splice_one_sublist.
Qed.

(** The world that the add handler leaves. *)
Lemma onAddItem_world (p : props) (w : world) :
  onAddItem p w w =
  {| formData := formData w;
     sharedRepeatState := {| isCollapsed := false |};
     onChangeCalls :=
       onChangeCalls w
       ++ [ {| cr_field := p_field p;
               cr_value :=
                 values p w
                 ++ [getInitializedFieldData (formData w) (p_field p)
                       (<[ id (p_field p) := Z.of_nat (length (values p w)) ]>
                          (p_indexes p))];
               cr_indexes := p_indexes p |} ];
     shouldScroll := true |}.
Proof.
  unfold Repeat.onAddItem, push, onChange, setShouldScroll,
    setSharedRepeatState. simpl. now rewrite slice_copy.
Qed.

(** X6: once the form holds the array that the add handler emitted,
    removing at the last position emits the array from before the
    addition. *)
Theorem add_then_remove_last (p : props) (w w2 : world) (c : changeRequest) :
  last (onChangeCalls (onAddItem p w w)) = Some c ->
  values p w2 = cr_value c ->
  emitted {| cr_field := p_field p; cr_value := values p w;
             cr_indexes := p_indexes p |}
          w2 (onDeleteItem p w2 (Z.of_nat (length (values p w))) w2).
Proof.
  intros Hc Hv.
  rewrite onAddItem_world in Hc. cbn [onChangeCalls] in Hc.
  rewrite last_snoc in Hc. injection Hc as <-. cbn [cr_value] in Hv.
  pose proof (onDeleteItem_emits getValuePath get p w2 w2
                (Z.of_nat (length (values p w)))) as He.
  rewrite splice_in_range in He
    by (rewrite Hv, length_app; simpl; lia).
  rewrite Nat2Z.id, Hv in He.
  rewrite take_app_length in He.
  rewrite drop_ge in He by (rewrite length_app; simpl; lia).
  now rewrite app_nil_r in He.
Qed.

(** X7: after an addition the new item is on display: once the form holds
    the emitted array, and with the shared state the handler left, all
    items are shown, whatever the cap and whether or not the list was
    collapsed before. *)
Theorem added_item_is_visible (p : props) (w w2 : world) (c : changeRequest) :
  last (onChangeCalls (onAddItem p w w)) = Some c ->
  values p w2 = cr_value c ->
  sharedRepeatState w2 = sharedRepeatState (onAddItem p w w) ->
  row_value <$> Repeater p w2 = cr_value c
  /\ last (row_value <$> Repeater p w2)
     = Some (getInitializedFieldData (formData w) (p_field p)
               (<[ id (p_field p) := Z.of_nat (length (values p w)) ]>
                  (p_indexes p))).
Proof.
  intros Hc Hv Hs.
  rewrite onAddItem_world in Hc, Hs.
  cbn [onChangeCalls sharedRepeatState] in Hc, Hs.
  rewrite last_snoc in Hc. injection Hc as <-. cbn [cr_value] in *.
  assert (Hd : displayValues p w2 = values p w2).
  { unfold Repeat.displayValues, isCollapsedNow.
    now rewrite Hs, andb_false_r. }
  rewrite Repeater_values, Hd, Hv. split; [reflexivity|apply last_snoc].
Qed.

(** X8: toggling twice restores the world: after the collapse button is
    clicked the footer still renders it, and clicking it again gives back
    the state from before the first click. *)
Theorem toggle_twice (p : props) (w : world) (first : world -> world) :
  collapseButton (RepeatFooter p w) = Some first ->
  exists second,
    collapseButton (RepeatFooter p (first w)) = Some second
    /\ second (first w) = w.
Proof.
  unfold Repeat.RepeatFooter. simpl.
  destruct (collapseEnabled p w) eqn:E; [|discriminate].
  intros [= <-].
  assert (E' : collapseEnabled p (toggle getValuePath get p w w) = true)
    by exact E.
  rewrite E'. eexists. split; [reflexivity|].
  unfold toggle at 1. unfold isCollapsedNow. rewrite E'.
  unfold toggle, setSharedRepeatState, isCollapsedNow. rewrite E.
  destruct w as [d [c] calls s]. simpl. now rewrite negb_involutive.
Qed.

(** X9: the effective cap is never zero, so with a cap that is not
    negative a list that has items always shows at least one row. *)
Theorem nonempty_list_has_rows (p : props) (w : world) :
  0 <= _getNonCollapsedItems (p_field p) ->
  _getNonCollapsedItems (p_field p) <> 0
  /\ (Repeater p w = [] <-> values p w = []).
Proof.
  intros Hcap.
  assert (Hnz : _getNonCollapsedItems (p_field p) <> 0).
  { unfold _getNonCollapsedItems.
    destruct (nonCollapsedItems (p_field p)) as [n|]; [|discriminate].
    destruct (Z.eqb_spec n 0); [discriminate|assumption]. }
  split; [exact Hnz|].
  assert (Hrows : Repeater p w = [] <-> displayValues p w = []).
  { rewrite <- (Repeater_values getValuePath get p w).
    split; [intros ->; reflexivity|apply fmap_nil_inv]. }
  rewrite Hrows. unfold Repeat.displayValues.
  destruct (isCollapsedNow getValuePath get p w); [|reflexivity].
  rewrite slice_prefix by exact Hcap.
  destruct (values p w) as [|x vs]; [now rewrite take_nil|].
  replace (Z.to_nat (_getNonCollapsedItems (p_field p)))
    with (S (Z.to_nat (_getNonCollapsedItems (p_field p) - 1))) by lia.
  simpl. split; discriminate.
Qed.

End Manager.

End RepeatMoreFacts.

(** ** More facts about Number.js: what is displayed after an input *)

Module InputFacts.
Import BigJs BigJsFacts ArithmeticFacts Js JsFacts NumberField
  NumberFieldFacts DisplayFacts.

Lemma eqb_refl (b : Big) : eqb b b = true.
Proof. unfold eqb, cmp. now rewrite Z.compare_refl. Qed.

(** [x === x] holds for every number but [NaN], and [v === v] for every
    value but [NaN]. *)
Lemma number_eqb_refl (x : jsnum) : isNaN x = false -> number_eqb x x = true.
Proof.
  destruct x as [|a|a|a m e]; simpl; intros H; try discriminate.
  - now destruct a.
  - reflexivity.
  - apply eqb_refl.
Qed.

Lemma strict_eq_refl (v : value) : v <> VNum NaN -> strict_eq v v = true.
Proof.
  destruct v as [| |x|x|x]; simpl; intros H; try reflexivity.
  - now destruct x.
  - apply number_eqb_refl. destruct x; try reflexivity. contradiction.
  - apply String.eqb_refl.
Qed.

Lemma sanitizeValue_not_NaN (f : field) (v : value) :
  sanitizeValue f v <> VNum NaN.
Proof.
  unfold sanitizeValue.
  destruct (isNullEquivalentValue v); [discriminate|].
  destruct (isValidNumber v) eqn:Hv; [|discriminate]. simpl.
  destruct (serializeToString f); [discriminate|].
  destruct v as [| |x|x|x]; simpl in *; try discriminate.
  - intros [= ->]. discriminate.
  - apply andb_true_iff in Hv as [_ Hv].
    intros [= Hx]. rewrite Hx in Hv. discriminate.
Qed.

Lemma replaceAll_empty (a b : ascii) (s : string) :
  String.eqb (replaceAll a b s) "" = String.eqb s "".
Proof. destruct s; reflexivity. Qed.

(** After [replaceAll(',', '.')] no comma is left. *)
Lemma replaceAll_no_comma (s : string) :
  ~ In ","%char (list_ascii_of_string (replaceAll "," "." s)).
Proof.
  induction s as [|c s IH]; simpl; [tauto|].
  intros [H|H]; [|exact (IH H)].
  destruct (Ascii.eqb_spec c ","); [discriminate H|congruence].
Qed.

(** The states that [setValue] can leave: the three outcomes on a text
    and the one on a null-equivalent input. *)
Lemma setValue_outcome (f : field) (input : value) (st st' : state) :
  setValue f input st = Some (tt, st') ->
  (isNullEquivalentValue input = true /\ st' = after st "" [VNull])
  \/ exists raw,
       input = VStr raw /\ String.eqb raw "" = false
       /\ let s := replaceAll "," "." raw in
          (s = "-" /\ st' = after st "-" [])
          \/ (s <> "-" /\ isNaN (Number_of_string s) = true
              /\ st' = after st "NaN" [VStr "NaN"])
          \/ (s <> "-" /\ isNaN (Number_of_string s) = false
              /\ st' = after st s [if serializeToString f then VStr s
                                   else VNum (Number_of_string s)]).
Proof.
  destruct (isNullEquivalentValue input) eqn:Hnull.
  - rewrite setValue_null by exact Hnull. intros [= <-]. now left.
  - destruct input as [| |b|n|raw];
      try (unfold setValue; rewrite Hnull; discriminate).
    rewrite setValue_text by exact Hnull. simpl in Hnull.
    intros [= <-]. right. exists raw. split; [reflexivity|].
    split; [exact Hnull|]. simpl.
    destruct (String.eqb_spec (replaceAll "," "." raw) "-") as [Hs|Hs];
      [now left|right].
    destruct (isNaN (Number_of_string (replaceAll "," "." raw))) eqn:Hnan;
      [left|right]; auto.
Qed.

(** X10: whenever [setValue] emits a value, rendering with that value and
    the new cache displays the cache itself: the text as typed (commas
    as periods, trailing zeros kept), the empty text after a clearing, or
    "NaN". *)
Theorem display_echoes_input (f : field) (input v : value) (st st' : state)
    (ro : bool) :
  setValue f input st = Some (tt, st') ->
  onChangeCalls st' = onChangeCalls st ++ [v] ->
  displayValue {| p_field := f; p_value := v; p_readonly := ro |}
               (stringValueCache st')
  = Some (stringValueCache st').
Proof.
  intros Hset Hcalls.
  destruct (setValue_outcome f input st st' Hset)
    as [[_ ->]|(raw & -> & Hraw & [[_ ->]|[(Hs & Hnan & ->)|(Hs & Hnum & ->)]])];
    simpl in Hcalls; apply app_inv_head in Hcalls.
  - injection Hcalls as <-. reflexivity.
  - discriminate.
  - injection Hcalls as <-. reflexivity.
  - injection Hcalls as <-. set (s := replaceAll "," "." raw) in *.
    assert (Hne : String.eqb s "" = false)
      by (unfold s; now rewrite replaceAll_empty).
    apply String.eqb_neq in Hs.
    assert (Hsan : sanitizeValue f (VStr s)
                   = if serializeToString f then VStr s
                     else VNum (Number_of_string s)).
    { unfold sanitizeValue. simpl. now rewrite Hne, Hnum. }
    unfold displayValue, cacheValueMatchesState, after.
    cbn [p_field p_value stringValueCache]. rewrite Hs.
    destruct (serializeToString f) eqn:Hmode.
    + cbn [strict_eq].
      destruct (String.eqb_spec s "NaN") as [Hn|_];
        [rewrite Hn in Hnum; discriminate Hnum|].
      rewrite Hsan, strict_eq_refl by discriminate. reflexivity.
    + cbn [strict_eq]. rewrite Hsan.
      rewrite sanitizeValue_finite by assumption.
      cbn [strict_eq]. now rewrite number_eqb_refl.
Qed.

(** X11: [setValue] calls [onChange] at most once, and the cache it leaves
    never contains a comma. *)
Theorem setValue_cache_has_no_comma (f : field) (input : value)
    (st st' : state) :
  setValue f input st = Some (tt, st') ->
  ~ In ","%char (list_ascii_of_string (stringValueCache st'))
  /\ exists vs, onChangeCalls st' = onChangeCalls st ++ vs
                /\ (length vs <= 1)%nat.
Proof.
  intros Hset.
  destruct (setValue_outcome f input st st' Hset)
    as [[_ ->]|(raw & -> & Hraw & [[_ ->]|[(Hs & Hnan & ->)|(Hs & Hnum & ->)]])];
    (split; [|eexists; split; [reflexivity|simpl; lia]]); simpl;
    try (intros H; repeat destruct H as [H|H]; discriminate H || exact H).
  apply replaceAll_no_comma.
Qed.

(** X12: in a readonly field the arrow keys change nothing: no value is
    emitted and the cache stays, though the default action of the key is
    still prevented. *)
Theorem readonly_arrow_keys (p : props) (code : string) (st : state) :
  p_readonly p = true ->
  code = "ArrowUp" \/ code = "ArrowDown" ->
  onKeyDown p code st =
  Some (tt, {| stringValueCache := stringValueCache st;
               onChangeCalls := onChangeCalls st;
               defaultPrevented := true |}).
Proof.
  intros Hro Hcode. unfold onKeyDown.
  destruct (readonly_ignores_arrows p st Hro) as [Hi Hd].
  unfold mbind, M_bind.
  destruct Hcode as [-> | ->]; simpl; rewrite andb_false_r;
    [rewrite Hi|rewrite Hd]; reflexivity.
Qed.

End InputFacts.

(** ** More facts about Number.js: the arrow stepping *)

Module StepMoreFacts.
Import BigJs BigJsFacts ArithmeticFacts Js JsFacts NumberField
  NumberFieldFacts DisplayFacts StepFacts Stepping.

(** *** Normal forms: equal values print alike *)

Lemma strip_normal (s : nat) : forall c, normal (strip c s).
Proof.
  induction s as [|s IH]; intros c; simpl.
  - now left.
  - destruct (Z.eqb_spec (c mod 10) 0); [apply IH|now right].
Qed.

Lemma normal_unique_le (t : nat) (a b : Big) :
  normal a -> normal b -> (scale a <= scale b <= t)%nat ->
  lift t a = lift t b -> a = b.
Proof.
  intros Ha Hb Hs Heq. unfold lift in Heq.
  replace (t - scale a)%nat with ((scale b - scale a) + (t - scale b))%nat
    in Heq by lia.
  rewrite pow10_add, Z.mul_assoc in Heq.
  pose proof (pow10_pos (t - scale b)) as Hpos.
  apply Z.mul_reg_r in Heq; [|lia].
  destruct (Nat.eq_dec (scale a) (scale b)) as [Hsc|Hsc].
  - rewrite Hsc, Nat.sub_diag in Heq. change (pow10 0) with 1 in Heq.
    destruct a, b; simpl in *. subst. f_equal. lia.
  - exfalso. destruct Hb as [Hb|Hb]; [lia|]. apply Hb.
    rewrite <- Heq.
    replace (scale b - scale a)%nat with (S (scale b - scale a - 1)) by lia.
    unfold pow10. rewrite Nat2Z.inj_succ, Z.pow_succ_r by lia.
    rewrite (Z.mul_comm 10), Z.mul_assoc. apply Z.mod_mul. lia.
Qed.

Lemma normal_unique (t : nat) (a b : Big) :
  normal a -> normal b -> (scale a <= t)%nat -> (scale b <= t)%nat ->
  lift t a = lift t b -> a = b.
Proof.
  intros Ha Hb Hsa Hsb Heq.
  destruct (Nat.le_ge_cases (scale a) (scale b)).
  - now apply (normal_unique_le t).
  - symmetry. now apply (normal_unique_le t).
Qed.

Lemma lift_normalize (t : nat) (b : Big) :
  (scale b <= t)%nat -> lift t (normalize b) = lift t b.
Proof. intros H. unfold normalize. now rewrite lift_strip. Qed.

Lemma scale_normalize (b : Big) : (scale (normalize b) <= scale b)%nat.
Proof. apply strip_scale. Qed.

(** Decimals of equal value have the same normal form, hence the same
    text. *)
Lemma normalize_eq (t : nat) (a b : Big) :
  (scale a <= t)%nat -> (scale b <= t)%nat ->
  lift t a = lift t b -> normalize a = normalize b.
Proof.
  intros Ha Hb Heq. pose proof (scale_normalize a). pose proof (scale_normalize b).
  apply (normal_unique t); try apply strip_normal; try lia.
  now rewrite !lift_normalize.
Qed.

Lemma toFixed_normalize (b : Big) : toFixed (normalize b) = toFixed b.
Proof.
  unfold toFixed, render. now rewrite normalize_idempotent.
Qed.

Lemma toFixed_eq (t : nat) (a b : Big) :
  (scale a <= t)%nat -> (scale b <= t)%nat ->
  lift t a = lift t b -> toFixed a = toFixed b.
Proof.
  intros Ha Hb Heq.
  rewrite <- (toFixed_normalize a), <- (toFixed_normalize b).
  now rewrite (normalize_eq t a b).
Qed.

Lemma emission_eq (f : field) (t : nat) (a b : Big) :
  (scale a <= t)%nat -> (scale b <= t)%nat ->
  lift t a = lift t b -> emission f a = emission f b.
Proof.
  intros Ha Hb Heq. unfold emission.
  now rewrite (toFixed_eq t a b).
Qed.

(** *** The value that the next render starts from *)

Lemma emission_valid (f : field) (r : Big) :
  isValidNumber (emission f r) = true.
Proof.
  unfold emission. destruct (serializeToString f); simpl.
  - now rewrite toFixed_not_empty, Number_of_string_toFixed_not_NaN.
  - now rewrite Number_of_string_toFixed_not_NaN.
Qed.

Lemma base_rerender (p : props) (r : Big) :
  reads_back (p_field p) r ->
  base (rerender p (emission (p_field p) r)) = Some (normalize r).
Proof.
  intros Hr. unfold base, rerender. cbn [p_value p_field].
  now rewrite emission_valid.
Qed.

(** With [serializeToString] the emitted text is always read back. *)
Lemma reads_back_text (f : field) (r : Big) :
  serializeToString f = true -> reads_back f r.
Proof.
  intros Hs. unfold reads_back, emission. rewrite Hs.
  apply Big_of_string_toFixed.
Qed.

Lemma base_not_numeric (p : props) :
  isValidNumber (p_value p) = false -> base p = Some zero.
Proof. intros H. unfold base. now rewrite H. Qed.

Section Arrows.
Variables (p : props) (b k : Big) (t : nat).
Hypothesis writable : p_readonly p = false.
Hypothesis current : base p = Some b.
Hypothesis magnitude : arrowIncrementValue (p_field p) = Some k.
Hypothesis nonzero : unscaled k <> 0.
Hypothesis scale_b : (scale b <= t)%nat.
Hypothesis scale_k : (scale k <= t)%nat.

Let B := lift t b.
Let K := lift t k.

(** The arrows in terms of [emission]. *)
Lemma increment_result (st : state) :
  exists r,
    increment p st = Some (tt, after st (toFixed r) [emission (p_field p) r])
    /\ (scale r <= t)%nat
    /\ lift t r = B - Z.rem B K + K.
Proof.
  destruct (mod_defined b k nonzero) as [m Hm].
  destruct (increment_emits p b k m t writable current magnitude Hm
              scale_b scale_k st) as [Hi Hv].
  eexists. split; [exact Hi|]. split; [|exact Hv].
  pose proof (scale_mod b k m Hm). pose proof (scale_minus b m).
  pose proof (scale_plus (minus b m) k). unfold common in *. lia.
Qed.

Lemma decrement_result (st : state) :
  exists r,
    decrement p st = Some (tt, after st (toFixed r) [emission (p_field p) r])
    /\ (scale r <= t)%nat
    /\ lift t r = if Z.rem B K =? 0 then B - K else B - Z.rem B K.
Proof.
  destruct (mod_defined b k nonzero) as [m Hm].
  destruct (decrement_emits p b k m t writable current magnitude Hm
              scale_b scale_k st) as [Hd Hv].
  eexists. split; [exact Hd|]. split; [|exact Hv].
  pose proof (scale_mod b k m Hm). pose proof (scale_minus b m).
  pose proof (scale_minus b k). unfold common in *.
  destruct (Z.rem (lift t b) (lift t k) =? 0); lia.
Qed.


End Arrows.


(** X15: on a step boundary, and when the incremented value is read
    back as it was computed (as every text is, and every number whose
    nearest double prints as the same decimal), an increment followed by
    a decrement of the re-rendered field restores the value: the
    decrement emits what the value [b] itself is emitted as, and caches
    its text. *)
Theorem increment_then_decrement (p : props) (b k : Big) (t : nat)
    (st st' : state) :
  p_readonly p = false ->
  base p = Some b ->
  arrowIncrementValue (p_field p) = Some k ->
  unscaled k <> 0 ->
  (scale b <= t)%nat -> (scale k <= t)%nat ->
  Z.rem (lift t b) (lift t k) = 0 ->
  reads_back (p_field p) (plus b k) ->
  exists r,
    increment p st = Some (tt, after st (toFixed r) [emission (p_field p) r])
    /\ decrement (rerender p (emission (p_field p) r)) st'
       = Some (tt, after st' (toFixed b) [emission (p_field p) b]).
Proof.
  intros Hro Hb Hk Hnz Hsb Hsk Hstep Hback.
  destruct (increment_result p b k t Hro Hb Hk Hnz Hsb Hsk st)
    as (r & Hi & Hsr & Hv).
  exists r. split; [exact Hi|].
  pose proof (scale_plus b k) as Hsp. unfold common in Hsp.
  assert (Hsum : lift t r = lift t (plus b k)).
  { rewrite Hv, Hstep, Z.sub_0_r. symmetry. apply lift_plus.
    unfold common. lia. }
  assert (Hback' : reads_back (p_field p) r).
  { unfold reads_back in *.
    rewrite (emission_eq (p_field p) t r (plus b k)),
      (normalize_eq t r (plus b k)) by (assumption || lia).
    exact Hback. }
  pose proof (scale_normalize r) as Hsn.
  destruct (decrement_result (rerender p (emission (p_field p) r))
              (normalize r) k t Hro (base_rerender p r Hback') Hk Hnz
              ltac:(lia) Hsk st') as (r2 & Hd & Hs2 & Hv2).
  rewrite lift_normalize, Hv, Hstep, Z.sub_0_r in Hv2 by exact Hsr.
  assert (Hrem : Z.rem (lift t b + lift t k) (lift t k) = 0).
  { pose proof (Z.quot_rem' (lift t b) (lift t k)) as Hq.
    rewrite Hstep, Z.add_0_r in Hq.
    replace (lift t b + lift t k)
      with ((Z.quot (lift t b) (lift t k) + 1) * lift t k) by lia.
    apply Z.rem_mul. now rewrite lift_zero_iff. }
  rewrite Hrem in Hv2. simpl in Hv2.
  cbn [rerender p_field] in Hd. rewrite Hd.
  rewrite (toFixed_eq t r2 b), (emission_eq (p_field p) t r2 b)
    by (assumption || lia).
  reflexivity.
Qed.

(** X16: when the current value is absent or not numeric the arrows step
    from zero: an increment caches the step itself and a decrement its
    negation, and what is emitted is that text, or [Number] of it. *)
Theorem arrows_from_nothing (p : props) (k : Big) (st : state) :
  p_readonly p = false ->
  isValidNumber (p_value p) = false ->
  arrowIncrementValue (p_field p) = Some k ->
  unscaled k <> 0 ->
  increment p st = Some (tt, after st (toFixed k) [emission (p_field p) k])
  /\ decrement p st
     = Some (tt, after st (toFixed (negate k))
                   [emission (p_field p) (negate k)]).
Proof.
  intros Hro Hv Hk Hnz.
  pose proof (base_not_numeric p Hv) as Hb.
  assert (Hz : lift (scale k) zero = 0) by reflexivity.
  assert (Hsz : (scale zero <= scale k)%nat) by (simpl; lia).
  destruct (increment_result p zero k (scale k) Hro Hb Hk Hnz Hsz (le_n _) st)
    as (r1 & H1 & S1 & V1).
  destruct (decrement_result p zero k (scale k) Hro Hb Hk Hnz Hsz (le_n _) st)
    as (r2 & H2 & S2 & V2).
  rewrite Hz in V1, V2. rewrite Z.rem_0_l in V1, V2
    by (now rewrite lift_zero_iff).
  simpl in V1, V2. split.
  - rewrite H1.
    rewrite (toFixed_eq (scale k) r1 k),
      (emission_eq (p_field p) (scale k) r1 k) by (assumption || lia).
    reflexivity.
  - rewrite H2.
    assert (Hneg : lift (scale k) (negate k) = - lift (scale k) k)
      by (unfold lift, negate; simpl; lia).
    rewrite (toFixed_eq (scale k) r2 (negate k)),
      (emission_eq (p_field p) (scale k) r2 (negate k))
      by (assumption || simpl; lia).
    reflexivity.
Qed.

(** X18: a step of zero (an [increment] attribute such as the text "0")
    makes big.js throw on [mod]: both arrows throw, and nothing is cached
    or emitted. *)
Theorem zero_step_throws (p : props) (k : Big) (st : state) :
  p_readonly p = false ->
  arrowIncrementValue (p_field p) = Some k ->
  unscaled k = 0 ->
  increment p st = None /\ decrement p st = None
  /\ onKeyDown p "ArrowUp" st = None /\ onKeyDown p "ArrowDown" st = None.
Proof.
  intros Hro Hk Hz.
  assert (Hmod : forall b, mod_ b k = None)
    by (intros b; unfold mod_; now rewrite Hz).
  assert (Hi : increment p st = None).
  { unfold increment. rewrite Hro, Hk. unfold mbind, M_bind, orThrow.
    destruct (base p) as [b|]; [|reflexivity]. simpl. now rewrite Hmod. }
  assert (Hd : decrement p st = None).
  { unfold decrement. rewrite Hro, Hk. unfold mbind, M_bind, orThrow.
    destruct (base p) as [b|]; [|reflexivity]. simpl. now rewrite Hmod. }
  repeat split; try assumption; unfold onKeyDown;
    rewrite andb_false_r; simpl; unfold mbind, M_bind;
    [now rewrite Hi|now rewrite Hd].
Qed.

(** X19: with no increment configured, a negative [decimalDigits] yields
    the text "1e--..." for big.js, which throws: there is no step. *)
Theorem negative_decimalDigits_throws (f : field) (d : Z) :
  truthy (incrementValue f) = false ->
  decimalDigits f = Some d -> d < 0 ->
  arrowIncrementValue f = None.
Proof.
  intros H Hd Hneg. unfold arrowIncrementValue. rewrite H, Hd.
  destruct (Z.eqb_spec d 0); [lia|].
  unfold int_text. destruct (Z.ltb_spec d 0); [|lia].
  unfold Big_of_string.
  change (list_ascii_of_string
            ("1e-" +:+ string_of_list_ascii ("-"%char :: digits (- d))))
    with ("1"%char :: "e"%char :: "-"%char :: "-"%char
          :: list_ascii_of_string (string_of_list_ascii (digits (- d)))).
  reflexivity.
Qed.

End StepMoreFacts.

(** ** More facts about [sanitizeValue] *)

Module SanitizeFacts.
Import BigJs BigJsFacts Js JsFacts JsMore NumberField DisplayFacts.

Lemma number_char_not_space (c : ascii) :
  number_char c = true -> is_space c = false.
Proof.
  destruct c as [[] [] [] [] [] [] [] []]; try reflexivity; discriminate.
Qed.

Lemma digit_number_char (c : ascii) : is_digit c = true -> number_char c = true.
Proof. intros H. unfold number_char, decimal_char. now rewrite H. Qed.

Lemma rstrip_Forall (P : ascii -> Prop) (q : ascii -> bool) (l : list ascii) :
  Forall P l -> Forall P (rstrip q l).
Proof.
  intros H. induction H as [|c l Hc _ IH]; simpl; [constructor|].
  destruct (q c && negb (nonempty (rstrip q l))); constructor; assumption.
Qed.

Lemma rstrip_nil (q : ascii -> bool) (l : list ascii) :
  rstrip q l = [] -> Forall (fun c => q c = true) l.
Proof.
  induction l as [|c l IH]; simpl; [constructor|].
  destruct (q c) eqn:Hq; simpl; [|discriminate].
  destruct (rstrip q l); simpl; [|discriminate].
  intros _. constructor; [exact Hq|now apply IH].
Qed.

Lemma zeros_value (l : list ascii) :
  Forall (fun c => Ascii.eqb "0" c = true) l -> digits_value l = 0.
Proof.
  unfold digits_value. intros H. induction H as [|c l Hc _ IH]; [reflexivity|].
  apply Ascii.eqb_eq in Hc. subst c. exact IH.
Qed.


(** The exponent that [String(n)] prints reads back. *)
Lemma parse_exponent_printed (sign : ascii) (n : Z) :
  0 <= n -> sign = "+"%char \/ sign = "-"%char ->
  exists e, parse_exponent ("e"%char :: sign :: digits n) = Some e.
Proof.
  intros Hn Hsign. destruct (digits_spec n Hn) as (Hall & Hne & _).
  unfold parse_exponent. change (is_e "e") with true. cbn iota.
  destruct Hsign as [-> | ->]; rewrite span_digits_all by exact Hall;
    destruct (digits n); try contradiction; simpl; eauto.
Qed.

(** A printed mantissa with its exponent is a decimal literal. *)
Lemma parse_unsigned_scientific (sig : list ascii) (sign : ascii) (n : Z) :
  Forall (fun c => is_digit c = true) sig -> sig <> [] ->
  0 <= n -> sign = "+"%char \/ sign = "-"%char ->
  let mantissa :=
    match sig with
    | d :: (_ :: _) as rest => d :: "."%char :: rest
    | _ => sig
    end in
  exists b, parse_unsigned (mantissa ++ "e"%char :: sign :: digits n) = Some b.
Proof.
  intros Hall Hne Hn Hsign mantissa.
  destruct (parse_exponent_printed sign n Hn Hsign) as [e He].
  destruct sig as [|d [|x xs]]; [contradiction| |]; subst mantissa;
    cbv iota beta; unfold parse_unsigned.
  - rewrite (span_digits_app [d]) by (assumption || reflexivity).
    simpl nonempty. cbn iota. rewrite He. eauto.
  - apply Forall_cons in Hall as [Hd Hrest].
    change ((d :: "."%char :: x :: xs) ++ "e"%char :: sign :: digits n)
      with ([d] ++ "."%char :: (x :: xs) ++ "e"%char :: sign :: digits n).
    rewrite (span_digits_app [d]) by (repeat constructor; assumption).
    rewrite (span_digits_app (x :: xs)) by (assumption || reflexivity).
    simpl nonempty. cbn iota. rewrite He. eauto.
Qed.

Lemma radix_of_number_char (c : ascii) :
  number_char c = true -> radix_of c = None.
Proof.
  destruct c as [[] [] [] [] [] [] [] []]; try reflexivity; discriminate.
Qed.

Lemma nondecimal_number (l : list ascii) :
  Forall (fun ch => number_char ch = true) l -> nondecimal l = None.
Proof.
  intros H. unfold nondecimal.
  destruct l as [|c [|p [|x r]]]; [reflexivity| | |];
    try (destruct c as [[] [] [] [] [] [] [] []]; reflexivity).
  apply Forall_cons in H as [_ H]. apply Forall_cons in H as [Hp _].
  rewrite (radix_of_number_char p Hp).
  destruct c as [[] [] [] [] [] [] [] []]; reflexivity.
Qed.

Lemma isNaN_negate (x : jsnum) : isNaN (negate_number x) = isNaN x.
Proof. now destruct x. Qed.

(** The text that [String(n)] prints for a decimal is not empty and
    [Number] reads it as a number. *)
Lemma decimal_toString_numeric (b : Big) :
  String.eqb (decimal_toString b) "" = false
  /\ isNaN (Number_of_string (decimal_toString b)) = false.
Proof.
  unfold decimal_toString. cbv zeta.
  set (c := unscaled (normalize b)). set (ds := digits (Z.abs c)).
  set (point := Z.of_nat (length ds) - Z.of_nat (scale (normalize b))).
  destruct (Z.eqb_spec c 0) as [Hz|Hnz]; cbn [orb].
  { rewrite toFixed_not_empty, Number_of_string_toFixed_not_NaN. auto. }
  destruct ((-6 <? point) && (point <=? 21)).
  { rewrite toFixed_not_empty, Number_of_string_toFixed_not_NaN. auto. }
  destruct (digits_spec (Z.abs c) (Z.abs_nonneg c)) as (Hall & Hne & Hval).
  fold ds in Hall, Hne, Hval.
  set (sig := rstrip (Ascii.eqb "0") ds).
  assert (Hsig : Forall (fun ch => is_digit ch = true) sig)
    by (apply rstrip_Forall; exact Hall).
  assert (Hsne : sig <> []).
  { intros Hnil. apply rstrip_nil, zeros_value in Hnil. lia. }
  set (e := point - 1).
  set (sign := if e <? 0 then "-"%char else "+"%char).
  assert (Hsign : sign = "+"%char \/ sign = "-"%char)
    by (unfold sign; destruct (e <? 0); auto).
  destruct (digits_spec (Z.abs e) (Z.abs_nonneg e)) as (Hexp & _ & _).
  destruct (parse_unsigned_scientific sig sign (Z.abs e) Hsig Hsne
              (Z.abs_nonneg e) Hsign) as [u Hu].
  set (mantissa := match sig with
                   | d :: (_ :: _) as rest => d :: "."%char :: rest
                   | _ => sig
                   end) in *.
  assert (Hm : Forall (fun ch => number_char ch = true) mantissa
               /\ exists d r, mantissa = d :: r /\ is_digit d = true).
  { unfold mantissa. destruct sig as [|d [|x xs]]; [contradiction| |].
    - split; [|apply Forall_cons in Hsig as [Hd _]; eauto].
      eapply Forall_impl; [exact Hsig|apply digit_number_char].
    - apply Forall_cons in Hsig as [Hd Hrest]. split; [|eauto].
      constructor; [now apply digit_number_char|].
      constructor; [reflexivity|].
      eapply Forall_impl; [exact Hrest|apply digit_number_char]. }
  destruct Hm as (Hmc & d & r & Hmd & Hd).
  set (tail := mantissa ++ "e"%char :: sign :: digits (Z.abs e)) in *.
  assert (Hchars : Forall (fun ch => number_char ch = true) tail).
  { apply Forall_app. split; [exact Hmc|].
    constructor; [reflexivity|]. constructor.
    - destruct Hsign as [-> | ->]; reflexivity.
    - eapply Forall_impl; [exact Hexp|apply digit_number_char]. }
  assert (Htail : Forall (fun ch => is_space ch = false) tail)
    by (eapply Forall_impl; [exact Hchars|apply number_char_not_space]).
  assert (Hhead : exists r', tail = d :: r')
    by (unfold tail; rewrite Hmd; simpl; eauto).
  destruct Hhead as [r' Hr'].
  assert (Hread : isNaN (unsigned_number tail) = false).
  { unfold unsigned_number. rewrite Hr', (not_Infinity d r' Hd), <- Hr', Hu.
    apply Number_value_not_NaN. }
  unfold Number_of_string. cbv zeta.
  rewrite list_ascii_of_string_of_list_ascii.
  destruct (c <? 0).
  - split; [reflexivity|]. cbn [app].
    unfold trim.
    rewrite ltrim_id, rstrip_id
      by (constructor; [reflexivity|exact Htail]).
    cbn [nonempty]. unfold numeric_literal.
    rewrite nondecimal_number by (constructor; [reflexivity|exact Hchars]).
    cbn [signed_number]. now rewrite isNaN_negate.
  - cbn [app]. split; [rewrite Hr'; reflexivity|].
    unfold trim. rewrite ltrim_id, rstrip_id by exact Htail.
    unfold numeric_literal. rewrite nondecimal_number by exact Hchars.
    rewrite Hr' in *. cbn [nonempty]. unfold signed_number.
    destruct d as [[] [] [] [] [] [] [] []]; try discriminate Hd;
      exact Hread.
Qed.

(** The text that [String(n)] prints for a number other than [NaN] is not
    empty and [Number] reads it as a number. *)
Lemma Number_toString_numeric (x : jsnum) :
  isNaN x = false ->
  String.eqb (Number_toString x) "" = false
  /\ isNaN (Number_of_string (Number_toString x)) = false.
Proof.
  destruct x as [|a|a|a m e]; intros H; try discriminate.
  - destruct a; split; reflexivity.
  - split; reflexivity.
  - apply decimal_toString_numeric.
Qed.

(** X20: sanitizing a sanitized value changes nothing, with or without
    [serializeToString]. *)
Theorem sanitizeValue_idempotent (f : field) (v : value) :
  sanitizeValue f (sanitizeValue f v) = sanitizeValue f v.
Proof.
  remember (sanitizeValue f v) as sv eqn:Hsv.
  unfold sanitizeValue in Hsv.
  destruct (isNullEquivalentValue v) eqn:Hnull; [subst sv; reflexivity|].
  destruct (isValidNumber v) eqn:Hvalid; [|subst sv; reflexivity].
  simpl in Hsv.
  destruct (serializeToString f) eqn:Hmode; subst sv.
  - assert (Hs : String.eqb (ToString v) "" = false
                 /\ isNaN (Number_of_string (ToString v)) = false).
    { destruct v as [| |x|x|x]; simpl in Hvalid, Hnull; try discriminate.
      - apply Number_toString_numeric. now apply negb_true_iff.
      - simpl. apply andb_true_iff in Hvalid as [_ Hv].
        apply negb_true_iff in Hv. auto. }
    destruct Hs as [Hne Hnum].
    unfold sanitizeValue. simpl. now rewrite Hne, Hnum, Hmode.
  - destruct v as [| |x|x|x]; simpl in Hvalid, Hnull; try discriminate.
    + apply sanitizeValue_finite; [exact Hmode|now apply negb_true_iff].
    + simpl. apply andb_true_iff in Hvalid as [_ Hv].
      apply sanitizeValue_finite; [exact Hmode|now apply negb_true_iff].
Qed.

(** X21: a sanitized value is [null], or a number other than [NaN] when
    [serializeToString] is off, or a text that is not empty and reads as a
    number when it is on; it is never the "NaN" sentinel nor the lone
    minus sign.  The number need not be finite: the text "1e400"
    sanitizes to [Infinity]. *)
Theorem sanitizeValue_range (f : field) (v : value) :
  (sanitizeValue f v = VNull
   \/ (serializeToString f = false
       /\ exists x, sanitizeValue f v = VNum x /\ isNaN x = false)
   \/ (serializeToString f = true
       /\ exists s, sanitizeValue f v = VStr s /\ s <> ""
                    /\ isNaN (Number_of_string s) = false))
  /\ sanitizeValue f v <> VStr "NaN"
  /\ sanitizeValue f v <> VStr "-"
  /\ (serializeToString f = false ->
      sanitizeValue f (VStr "1e400") = VNum (Infinity false)).
Proof.
  assert (H : sanitizeValue f v = VNull
   \/ (serializeToString f = false
       /\ exists x, sanitizeValue f v = VNum x /\ isNaN x = false)
   \/ (serializeToString f = true
       /\ exists s, sanitizeValue f v = VStr s /\ s <> ""
                    /\ isNaN (Number_of_string s) = false)).
  { destruct (serializeToString f) eqn:Hmode.
    - unfold sanitizeValue.
      destruct (isNullEquivalentValue v) eqn:Hnull; [now left|].
      destruct (isValidNumber v) eqn:Hvalid; [|now left]. simpl. right.
      rewrite Hmode. right. split; [reflexivity|].
      exists (ToString v). split; [reflexivity|].
      destruct v as [| |x|x|x]; simpl in Hvalid, Hnull; try discriminate.
      + destruct (Number_toString_numeric x) as [Hne Hnum];
          [now apply negb_true_iff|].
        split; [now apply String.eqb_neq|exact Hnum].
      + simpl. apply andb_true_iff in Hvalid as [_ Hv].
        apply negb_true_iff in Hv. split; [now apply String.eqb_neq|exact Hv].
    - destruct (sanitizeValue_number f v Hmode) as [Hn|Hx]; auto. }
  split; [exact H|]. split; [|split].
  - destruct H as [-> |[(_ & x & -> & _)|(_ & s & -> & _ & Hnum)]];
      try discriminate. intros [= ->]. discriminate Hnum.
  - destruct H as [-> |[(_ & x & -> & _)|(_ & s & -> & _ & Hnum)]];
      try discriminate. intros [= ->]. discriminate Hnum.
  - intros Hmode. unfold sanitizeValue. rewrite Hmode. evaluate.
Qed.

End SanitizeFacts.

(** ** Facts about the rounding of [Number] and the digits of [String] *)

Module RoundingFacts.
Import BigJs BigJsFacts ArithmeticFacts Js JsFacts.

(** *** Powers of two *)




(** *** The binade of a fraction *)




(** *** The nearest integer *)






(** *** [round] *)










(** *** The digits of [String(n)] *)







End RoundingFacts.

(** ** Facts about the text of [String(n)]: big.js reads it exactly *)

Module NumberTextFacts.
Import BigJs BigJsFacts ArithmeticFacts Js JsFacts JsMore Stepping.
Import DisplayFacts StepMoreFacts SanitizeFacts RoundingFacts.






End NumberTextFacts.

(** ** Facts about Number.js: the display of a sanitized value *)

Module RoundTripFacts.
Import BigJs BigJsFacts ArithmeticFacts Js JsFacts NumberField.
Import DisplayFacts InputFacts RoundingFacts NumberTextFacts.




End RoundTripFacts.

(** ** Facts about HeightEntry.js *)

Module HeightFacts.
Import BigJs BigJsFacts ArithmeticFacts Js HeightEntry.

(** [b < 1] on the numerator of [b]. *)
Lemma cmp_one (b : Big) :
  (cmp b one =? -1) = (unscaled b <? pow10 (scale b)).
Proof.
  unfold cmp, common, lift. simpl. rewrite Nat.max_0_r, Nat.sub_diag, Nat.sub_0_r.
  change (pow10 0) with 1. rewrite Z.mul_1_r, Z.mul_1_l.
  destruct (Z.compare_spec (unscaled b) (pow10 (scale b)));
    destruct (Z.ltb_spec (unscaled b) (pow10 (scale b))); try reflexivity; lia.
Qed.

(** The number 1, and [x < 1] on the decimal of [x]. *)
Lemma decimal_of_one : decimal_of (Number_value one) = Some one.
Proof. vm_compute. reflexivity. Qed.

Lemma lessThan_one (x : jsnum) :
  number_ltb x (Number_value one) =
  match x with
  | NaN => false
  | Infinity negative => negative
  | _ => match decimal_of x with
         | Some b => unscaled b <? pow10 (scale b)
         | None => false
         end
  end.
Proof.
  pose proof decimal_of_one as H. revert H.
  replace (Number_value one) with (Finite false 4503599627370496 (-52))
    by (vm_compute; reflexivity).
  intros H. destruct x as [|a|a|a m e]; cbn [number_ltb]; try reflexivity;
    rewrite H; destruct (decimal_of _); try reflexivity; apply cmp_one.
Qed.

(** X22: the height validation accepts exactly the absent values and the
    whole numbers from 1 on; texts, booleans, fractions, [NaN] and
    numbers below 1 all get a message. *)
Theorem validate_accepts (v : value) :
  validate v = None <->
  v = VUndefined \/ v = VNull
  \/ exists x n, v = VNum x /\ decimal_of x = Some (mkBig n 0) /\ 1 <= n.
Proof.
  unfold validate, lessThan. split.
  - destruct v as [| |b|x|s]; cbn [strict_eq orb ToNumber isInteger negb];
      auto;
      try (intros H;
           repeat match type of H with
                  | (if ?c then _ else _) = _ => destruct c
                  end; discriminate).
    rewrite lessThan_one. intros H. right. right.
    destruct x as [|a|a|a m e]; try discriminate;
      try (destruct a; discriminate).
    destruct (decimal_of (Finite a m e)) as [[n s]|] eqn:Hd; [|discriminate].
    cbn [unscaled scale] in H.
    destruct (Z.ltb_spec n (pow10 s)); [discriminate|].
    destruct (Nat.eqb_spec s 0) as [->|]; [|discriminate].
    exists (Finite a m e), n. change (pow10 0) with 1 in *. auto.
  - intros [-> | [-> | (x & n & -> & Hd & Hge)]]; try reflexivity.
    cbn [strict_eq orb ToNumber isInteger]. rewrite lessThan_one, Hd.
    destruct x as [|a|a|a m e]; try discriminate;
      cbn [unscaled scale]; change (pow10 0) with 1;
      destruct (Z.ltb_spec n 1); try lia; reflexivity.
Qed.

(** X23: the message "Should be greater than zero." is given exactly to
    the present values that convert to a number below 1: to [-Infinity],
    and to the finite numbers below 1, zero and positive fractions such
    as 0.5 included. *)
Theorem validate_below_one (v : value) :
  validate v = Some "Should be greater than zero." <->
  v <> VUndefined /\ v <> VNull
  /\ (ToNumber v = Infinity true
      \/ exists b, decimal_of (ToNumber v) = Some b
                   /\ unscaled b < pow10 (scale b)).
Proof.
  unfold validate, lessThan. rewrite lessThan_one.
  destruct (strict_eq v VUndefined || strict_eq v VNull) eqn:Habs.
  - split; [discriminate|]. intros (Hu & Hn & _).
    destruct v as [| |x|x|x]; simpl in Habs; try discriminate; congruence.
  - assert (Hpresent : v <> VUndefined /\ v <> VNull)
      by (destruct v as [| |x|x|x]; simpl in Habs; split; discriminate).
    destruct Hpresent as [Hu Hn].
    destruct (ToNumber v) as [|a|a|a m e] eqn:Hx.
    + split; [intros H; destruct (isInteger v); discriminate|].
      intros (_ & _ & [H|(b & H & _)]); discriminate.
    + destruct a.
      * split; [auto|reflexivity].
      * split; [intros H; destruct (isInteger v); discriminate|].
        intros (_ & _ & [H|(b & H & _)]); discriminate.
    + cbn [decimal_of unscaled scale zero]. change (0 <? pow10 0) with true.
      split; [intros _|reflexivity].
      repeat split; auto. right. exists zero. split; [reflexivity|].
      reflexivity.
    + destruct (decimal_of (Finite a m e)) as [b|] eqn:Hd.
      * destruct (Z.ltb_spec (unscaled b) (pow10 (scale b))) as [Hlt|Hge].
        -- split; [intros _|reflexivity]. repeat split; eauto.
        -- split; [intros H; destruct (isInteger v); discriminate|].
           intros (_ & _ & [H|(b' & [= <-] & Hlt)]); [discriminate|lia].
      * split; [intros H; destruct (isInteger v); discriminate|].
        intros (_ & _ & [H|(b' & H & _)]); discriminate.
Qed.

(** The texts "0x0" and "-Infinity" are below 1; 0.5 is. *)
Example validate_samples :
  validate (VStr "0x0") = Some "Should be greater than zero."
  /\ validate (VStr "-Infinity") = Some "Should be greater than zero."
  /\ validate (VNum (Number_value (mkBig 5 1)))
     = Some "Should be greater than zero."
  /\ validate (VStr "2") = Some "Should be an integer."
  /\ validate (VNum (Infinity false)) = Some "Should be an integer."
  /\ validate (VNum (Number_value (mkBig 2 0))) = None.
Proof. evaluate. Qed.

End HeightFacts.

(** ** Facts about [isFieldRepeating] and Datepicker.js *)

Module FieldRepeatingFacts.
Import FieldRepeating.

(** X24: [isFieldRepeating] answers false for an absent or empty id
    whatever the registries hold; for any other id it throws exactly when
    the id is not registered or the type of its field has no definition,
    and it answers true exactly when the type is repeatable and the field
    is repeating. *)
Theorem isFieldRepeating_cases
    (registry_get : string -> option formField)
    (formFields_get : string -> option formFieldDefinition)
    (id : option string) :
  let result := isFieldRepeating registry_get formFields_get id in
  (id = None \/ id = Some "" -> result = Some false)
  /\ (result = None <->
      exists i, id = Some i /\ i <> ""
        /\ (registry_get i = None
            \/ exists f, registry_get i = Some f
                         /\ formFields_get (type f) = None))
  /\ (result = Some true <->
      exists i f d, id = Some i /\ i <> ""
        /\ registry_get i = Some f /\ formFields_get (type f) = Some d
        /\ repeatable d = true /\ isRepeating f = true).
Proof.
  intros result. subst result. unfold isFieldRepeating.
  destruct id as [i|].
  2:{ split; [reflexivity|]. split; split; try discriminate.
      - intros (i & H & _). discriminate.
      - intros (i & f & d & H & _). discriminate. }
  destruct (String.eqb_spec i "") as [->|Hne].
  { split; [reflexivity|]. split; split; try discriminate.
    - intros (i & [= <-] & H & _). contradiction.
    - intros (i & f & d & [= <-] & H & _). contradiction. }
  split; [intros [H|H]; [discriminate|injection H as H; contradiction]|].
  destruct (registry_get i) as [f|] eqn:Hf; simpl.
  2:{ split; split.
      - intros _. exists i. auto.
      - reflexivity.
      - discriminate.
      - intros (i' & f & d & [= <-] & _ & H & _). congruence. }
  destruct (formFields_get (type f)) as [d|] eqn:Hd; simpl.
  2:{ split; split.
      - intros _. exists i. repeat split; eauto.
      - reflexivity.
      - discriminate.
      - intros (i' & f' & d & [= <-] & _ & H1 & H2 & _).
        rewrite Hf in H1. injection H1 as <-. congruence. }
  split; split.
  - discriminate.
  - intros (i' & [= <-] & _ & [H|(f' & H1 & H2)]); [congruence|].
    rewrite Hf in H1. injection H1 as <-. congruence.
  - intros [= H]. apply andb_true_iff in H as [H1 H2].
    exists i, f, d. repeat split; auto.
  - intros (i' & f' & d' & [= <-] & _ & H1 & H2 & H3 & H4).
    rewrite Hf in H1. injection H1 as <-.
    rewrite Hd in H2. injection H2 as <-. now rewrite H3, H4.
Qed.

End FieldRepeatingFacts.

Module DatepickerFacts.
Import Datepicker.

(** Case analysis on the event and on every test the handlers make. *)
Ltac by_cases st e :=
  destruct st as [inst dirty force log];
  destruct e as [code|inside|day| |open| |day|stays|];
  unfold handle, fmap, option_fmap, option_map, onInputKeyDown, onInputFocus,
    onInputBlur, onInput, onMouseDown, onCalendarChange, onCalendarMouseDown,
    onCalendarFocusOut, dateEffect, focusEffect; simpl;
  rewrite ?orb_true_r, ?andb_false_r; simpl;
  repeat match goal with
         | |- context [if ?c then _ else _] => destruct c; simpl
         end;
  intros Hst; try discriminate Hst; injection Hst as <-; simpl;
  rewrite <- ?app_assoc.

(** The effects added to a record of calls. *)
Ltac added Hnew :=
  first [ rewrite <- (app_nil_r (effects _)) in Hnew at 1
        | idtac ];
  simpl in Hnew;
  first [ apply app_inv_head in Hnew
        | match type of Hnew with
          | ?l = ?l ++ _ =>
              rewrite <- (app_nil_r l) in Hnew at 1; apply app_inv_head in Hnew
          end ].

(** Every handler only adds to the record of calls. *)
Lemma handle_effects (readonly : bool) (e : event) (st st' : state) :
  handle readonly e st = Some st' ->
  exists new, effects st' = effects st ++ new.
Proof.
  by_cases st e; eexists; try reflexivity; symmetry; apply app_nil_r.
Qed.

(** X25: whatever the event, a synthetic Enter is dispatched at most
    once, and only for an input that is dirty; the input is then marked
    clean.  A clean input is never submitted again. *)
Theorem submits_only_dirty_input (readonly : bool) (e : event)
    (st st' : state) (new : list effect) :
  handle readonly e st = Some st' ->
  effects st' = effects st ++ new ->
  DispatchEnter ∈ new ->
  isInputDirty st = true /\ isInputDirty st' = false
  /\ length (filter (fun x => x = DispatchEnter) new) = 1%nat.
Proof.
  by_cases st e; intros Hnew; added Hnew; subst new; intros Hin;
    repeat (apply elem_of_cons in Hin as [Hin|Hin]; [try discriminate Hin|]);
    try (apply elem_of_nil in Hin; contradiction);
    repeat split; reflexivity.
Qed.


(** X27: ArrowDown moves the focus into the calendar exactly once and
    prevents the default; a dirty input is submitted first and the focus
    follows with the effect of the next render, and afterwards the input
    is clean and no focus is pending. *)
Theorem arrow_down_focuses_calendar (readonly : bool) (st st' : state) :
  hasInstance st = true ->
  forceFocusCalendar st = false ->
  handle readonly (KeyDown "ArrowDown") st = Some st' ->
  effects st' =
    effects st ++ (if isInputDirty st
                   then [DispatchEnter; PreventDefault; FocusDay]
                   else [FocusDay; PreventDefault])
  /\ isInputDirty st' = false
  /\ forceFocusCalendar st' = false.
Proof.
  destruct st as [inst dirty force log]. simpl. intros -> ->.
  unfold handle, fmap, option_fmap, option_map, onInputKeyDown, focusEffect.
  simpl. destruct dirty; simpl; intros [= <-]; simpl;
    rewrite <- ?app_assoc; auto.
Qed.

End DatepickerFacts.

(** ** Examples for the further facts *)

Module MoreExamples.
Import JsArray Repeat BigJs Js Samples MoreSamples Stepping.
Import RepeatMoreFacts InputFacts StepFacts StepMoreFacts.
Import RoundTripFacts DatepickerFacts.

Lemma Repeater_row_witness :
  exists r,
    Repeater samplePath sampleGet (repeatProps (Some 2))
      (repeatWorld [7; 8; 9]%nat true) !! 1%nat = Some r
    /\ values samplePath sampleGet (repeatProps (Some 2))
         (repeatWorld [7; 8; 9]%nat true) !! 1%nat = Some (row_value r)
    /\ row_indexes r !! "list" = Some 1.
Proof.
  eexists. split; [reflexivity|].
  destruct (Repeater_row samplePath sampleGet (repeatProps (Some 2))
              (repeatWorld [7; 8; 9]%nat true) 1 _ eq_refl)
    as (Hv & _ & Hi & _).
  split; [exact Hv|exact Hi].
Defined.

Lemma row_remove_removes_row_witness :
  let p := repeatProps None in
  let w := repeatWorld [7; 8; 9]%nat false in
  exists r handler,
    Repeater samplePath sampleGet p w !! 1%nat = Some r
    /\ row_remove r = Some handler
    /\ emitted {| cr_field := p_field p; cr_value := [7; 9]%nat;
                  cr_indexes := p_indexes p |}
               w (handler w).
Proof.
  intros p w. do 2 eexists. split; [reflexivity|]. split; [reflexivity|].
  destruct (row_remove_removes_row samplePath sampleGet p w 1 _ _
              eq_refl eq_refl) as (_ & He & _).
  exact He.
Defined.

Lemma add_then_remove_last_witness :
  let p := repeatProps None in
  let w2 := repeatWorld [1; 2; 3; 103]%nat false in
  emitted {| cr_field := p_field p; cr_value := [1; 2; 3]%nat;
             cr_indexes := p_indexes p |}
          w2 (onDeleteItem samplePath sampleGet p w2 3 w2).
Proof.
  intros p w2.
  exact (add_then_remove_last samplePath sampleGet sampleInit p
           (repeatWorld [1; 2; 3]%nat true) w2
           {| cr_field := p_field p; cr_value := [1; 2; 3; 103]%nat;
              cr_indexes := p_indexes p |}
           eq_refl eq_refl).
Defined.

Lemma added_item_is_visible_witness :
  let p := repeatProps (Some 2) in
  row_value <$> Repeater samplePath sampleGet p
                  (repeatWorld [1; 2; 3; 103]%nat false)
  = [1; 2; 3; 103]%nat.
Proof.
  intros p.
  exact (proj1 (added_item_is_visible samplePath sampleGet sampleInit p
                  (repeatWorld [1; 2; 3]%nat true)
                  (repeatWorld [1; 2; 3; 103]%nat false)
                  {| cr_field := p_field p; cr_value := [1; 2; 3; 103]%nat;
                     cr_indexes := p_indexes p |}
                  eq_refl eq_refl eq_refl)).
Defined.

(** In a readonly list the add button does not react, while the remove
    button of the second row removes its item. *)
Example readonly_list_shrinks :
  let p := readonlyRepeatProps in
  let w := repeatWorld [7; 8; 9]%nat false in
  (exists b, addButton (RepeatFooter samplePath sampleGet sampleInit p w) = Some b
             /\ click b w = w)
  /\ onChangeCalls (removeItem samplePath sampleGet p w 1 w)
     = [ {| cr_field := p_field p; cr_value := [7; 9]%nat;
            cr_indexes := p_indexes p |} ].
Proof. split; [eexists; split; reflexivity|reflexivity]. Qed.

Lemma toggle_twice_witness :
  let p := repeatProps (Some 2) in
  let w := repeatWorld [1; 2; 3]%nat true in
  exists second,
    collapseButton
      (RepeatFooter samplePath sampleGet sampleInit p
         (toggle samplePath sampleGet p w w)) = Some second
    /\ second (toggle samplePath sampleGet p w w) = w.
Proof.
  intros p w.
  exact (toggle_twice samplePath sampleGet sampleInit p w
           (toggle samplePath sampleGet p w) eq_refl).
Defined.

Lemma nonempty_list_has_rows_witness :
  let p := repeatProps (Some 2) in
  let w := repeatWorld [1; 2; 3]%nat true in
  0 <= _getNonCollapsedItems (p_field p)
  /\ _getNonCollapsedItems (p_field p) <> 0
  /\ (Repeater samplePath sampleGet p w = []
      <-> values samplePath sampleGet p w = []).
Proof.
  intros p w. split; [evaluate|].
  apply (nonempty_list_has_rows samplePath sampleGet p w). evaluate.
Defined.


Example display_of_a_tenth :
  NumberField.displayValue
    (numberProps plainField (NumberField.sanitizeValue plainField (VStr "0.10")))
    "7" = Some "0.1".
Proof. vm_compute. reflexivity. Qed.

Lemma display_echoes_input_witness :
  let v := VNum (Number_value (mkBig 15 1)) in
  NumberField.setValue plainField (VStr "1,50") (NumberField.initial "")
  = Some (tt, NumberField.after (NumberField.initial "") "1.50" [v])
  /\ NumberField.displayValue (numberProps plainField v) "1.50" = Some "1.50".
Proof.
  intros v.
  assert (H : NumberField.setValue plainField (VStr "1,50")
                (NumberField.initial "")
              = Some (tt, NumberField.after (NumberField.initial "") "1.50" [v]))
    by (vm_compute; reflexivity).
  split; [exact H|].
  exact (display_echoes_input plainField (VStr "1,50") v
           (NumberField.initial "")
           (NumberField.after (NumberField.initial "") "1.50" [v]) false
           H eq_refl).
Defined.

Lemma setValue_cache_has_no_comma_witness :
  let st' := NumberField.after (NumberField.initial "") "1.5"
               [VNum (Number_value (mkBig 15 1))] in
  ~ In ","%char (list_ascii_of_string (NumberField.stringValueCache st'))
  /\ exists vs,
       NumberField.onChangeCalls st'
       = NumberField.onChangeCalls (NumberField.initial "") ++ vs
       /\ (length vs <= 1)%nat.
Proof.
  intros st'.
  exact (setValue_cache_has_no_comma plainField (VStr "1,5")
           (NumberField.initial "") st' ltac:(vm_compute; reflexivity)).
Defined.

Lemma readonly_arrow_keys_witness :
  NumberField.onKeyDown (readonlyProps plainField five) "ArrowUp"
    (NumberField.initial "5")
  = Some (tt, {| NumberField.stringValueCache := "5";
                 NumberField.onChangeCalls := [];
                 NumberField.defaultPrevented := true |}).
Proof.
  exact (readonly_arrow_keys (readonlyProps plainField five) "ArrowUp"
           (NumberField.initial "5") eq_refl (or_introl eq_refl)).
Defined.



(** From the number 1 with two decimal digits: up to 1.01, whose nearest
    double prints as 1.01, and down again to 1. *)
Lemma increment_then_decrement_witness :
  let f := centsField false in
  let p := numberProps f (VNum (Number_value one)) in
  reads_back f (plus one cent)
  /\ exists r,
       NumberField.increment p (NumberField.initial "1")
       = Some (tt, NumberField.after (NumberField.initial "1") (toFixed r)
                     [emission f r])
       /\ NumberField.decrement (rerender p (emission f r))
            (NumberField.initial "1.01")
          = Some (tt, NumberField.after (NumberField.initial "1.01") "1"
                        [VNum (Number_value one)]).
Proof.
  intros f p.
  assert (H : reads_back f (plus one cent)) by (vm_compute; reflexivity).
  split; [exact H|].
  exact (increment_then_decrement p one cent 2 (NumberField.initial "1")
           (NumberField.initial "1.01") eq_refl
           ltac:(vm_compute; reflexivity) eq_refl
           ltac:(discriminate) (le_S _ _ (le_S _ _ (le_n 0))) (le_n 2)
           eq_refl H).
Defined.

Lemma arrows_from_nothing_witness :
  let p := numberProps (centsField false) VNull in
  let st := NumberField.initial "" in
  NumberField.increment p st
  = Some (tt, NumberField.after st "0.01" [VNum (Number_value cent)])
  /\ NumberField.decrement p st
     = Some (tt, NumberField.after st "-0.01"
                   [VNum (Number_value (negate cent))]).
Proof.
  intros p st.
  exact (arrows_from_nothing p cent st eq_refl eq_refl eq_refl
           ltac:(discriminate)).
Defined.

(** [Number] reads more than decimals, and rounds: "0x10" is 16, a
    signed hexadecimal literal is no number, "1e400" is [Infinity], and
    2^53 + 1 is read as 2^53. *)
Example Number_of_string_samples :
  Number_of_string "0x10" = Number_value (mkBig 16 0)
  /\ Number_of_string "-0x10" = NaN
  /\ Number_of_string " 12 " = Number_value (mkBig 12 0)
  /\ Number_of_string "1e400" = Infinity false
  /\ Number_of_string "9007199254740993"
     = Number_value (mkBig 9007199254740992 0).
Proof. evaluate. Qed.

(** The text "0x10" is cached as typed and emitted as the number 16. *)
Example setValue_hexadecimal :
  NumberField.setValue plainField (VStr "0x10") (NumberField.initial "")
  = Some (tt, NumberField.after (NumberField.initial "") "0x10"
                [VNum (Number_value (mkBig 16 0))]).
Proof. evaluate. Qed.

(** At 2^53 with step 1 an increment caches 2^53 + 1 and emits its
    nearest double, which is 2^53 again: the emitted value is not read
    back as the decimal it was computed from, the decrement of the next
    render emits 2^53 - 1, and the pair of arrows does not restore the
    value. *)
Example increment_beyond_precision :
  let v := VNum (Number_value (mkBig 9007199254740992 0)) in
  let p := numberProps plainField v in
  NumberField.increment p (NumberField.initial "9007199254740992")
  = Some (tt, NumberField.after (NumberField.initial "9007199254740992")
                "9007199254740993" [v])
  /\ ~ reads_back plainField (plus (mkBig 9007199254740992 0) one)
  /\ NumberField.decrement (rerender p v)
       (NumberField.initial "9007199254740993")
     = Some (tt, NumberField.after (NumberField.initial "9007199254740993")
                   "9007199254740991"
                   [VNum (Number_value (mkBig 9007199254740991 0))]).
Proof. evaluate. Qed.

(** A step with more digits than a double holds is emitted rounded, and a
    step below the least double is emitted as 0. *)
Example step_beyond_precision :
  let f := {| NumberField.decimalDigits := None;
              NumberField.serializeToString := false;
              NumberField.incrementValue := VStr "9007199254740993" |} in
  let g := {| NumberField.decimalDigits := Some 400;
              NumberField.serializeToString := false;
              NumberField.incrementValue := VUndefined |} in
  NumberField.increment (numberProps f VNull) (NumberField.initial "")
  = Some (tt, NumberField.after (NumberField.initial "") "9007199254740993"
                [VNum (Number_value (mkBig 9007199254740992 0))])
  /\ NumberField.increment (numberProps g VNull) (NumberField.initial "")
     = Some (tt, NumberField.after (NumberField.initial "")
                   (toFixed (mkBig 1 400)) [VNum (Zero false)]).
Proof. evaluate. Qed.

Lemma arrowIncrementValue_decimalDigits_witness :
  NumberField.arrowIncrementValue (centsField false) = Some cent.
Proof.
  exact (arrowIncrementValue_decimalDigits (centsField false) 2
           eq_refl eq_refl eq_refl).
Defined.

Lemma zero_step_throws_witness :
  let p := numberProps zeroStepField five in
  let st := NumberField.initial "5" in
  NumberField.increment p st = None /\ NumberField.decrement p st = None
  /\ NumberField.onKeyDown p "ArrowUp" st = None
  /\ NumberField.onKeyDown p "ArrowDown" st = None.
Proof.
  intros p st. exact (zero_step_throws p zero st eq_refl eq_refl eq_refl).
Defined.

Lemma negative_decimalDigits_throws_witness :
  NumberField.arrowIncrementValue negativeDigitsField = None.
Proof.
  exact (negative_decimalDigits_throws negativeDigitsField (-2)
           eq_refl eq_refl eq_refl).
Defined.

(** A blur with unsubmitted text: the text is submitted, then the blur is
    reported. *)
Lemma submits_only_dirty_input_witness :
  let st' := {| Datepicker.hasInstance := true;
                Datepicker.isInputDirty := false;
                Datepicker.forceFocusCalendar := false;
                Datepicker.effects :=
                  [Datepicker.DispatchEnter; Datepicker.DateTimeBlur] |} in
  Datepicker.handle false (Datepicker.Blur false) (picker true) = Some st'
  /\ Datepicker.isInputDirty (picker true) = true
  /\ Datepicker.isInputDirty st' = false.
Proof.
  intros st'. split; [reflexivity|].
  destruct (submits_only_dirty_input false (Datepicker.Blur false)
              (picker true) st'
              [Datepicker.DispatchEnter; Datepicker.DateTimeBlur]
              eq_refl eq_refl (list_elem_of_here _ _)) as (H1 & H2 & _).
  split; [exact H1|exact H2].
Defined.


Lemma arrow_down_focuses_calendar_witness :
  exists st',
    Datepicker.handle false (Datepicker.KeyDown "ArrowDown") (picker true)
    = Some st'
    /\ Datepicker.effects st'
       = [Datepicker.DispatchEnter; Datepicker.PreventDefault;
          Datepicker.FocusDay]
    /\ Datepicker.isInputDirty st' = false
    /\ Datepicker.forceFocusCalendar st' = false.
Proof.
  eexists. split; [reflexivity|].
  exact (arrow_down_focuses_calendar false (picker true) _
           eq_refl eq_refl eq_refl).
Defined.

End MoreExamples.
